(** * InstrumentKit [instruments/named_struct.py]: C-like structures with named fields

    A shallow embedding of [Field], [StringField], [Padding], the metaclass
    [HasFields] and [NamedStruct], together with a model of the part of
    Python's [struct] library they call, followed by the properties of
    packing, unpacking, construction and equality.

    Conventions of the embedding.
    - The semantics are those of Python 3: [str] is text, [bytes] is not.
      Python [str] is [string] (code points below 256), [bytes] is
      [list byte], [int] is [Z].
    - A call returns [Ok v], raises ([Raise e]) or is [Unmodelled]: the
      third outcome marks the uses this development does not describe
      (packing and unpacking floating-point codes, a zero-width Pascal
      string, a format with an embedded null character, names that rebind
      members of [NamedStruct] itself).  No theorem concludes anything
      from an [Unmodelled] outcome.
    - An [OrderedDict] is an association list in insertion order.
    - A structure type derives directly from [NamedStruct]; a field object
      belongs to one class. *)

From Stdlib Require Import ZArith List String Ascii Bool Lia Permutation Sorted DecimalString.
From Stdlib.Strings Require Import Byte.
Import ListNotations.

Local Open Scope string_scope.
Local Open Scope list_scope.
Local Open Scope Z_scope.

(** ** Outcomes of a call *)

Inductive exn : Type :=
| TypeError
| ValueError
| KeyError
| AttributeError
| IndexError
| RecursionError
| UnicodeEncodeError
| UnicodeDecodeError
| StructError.

Inductive result (A : Type) : Type :=
| Ok (a : A)
| Raise (e : exn)
| Unmodelled.

Arguments Ok {A} a.
Arguments Raise {A} e.
Arguments Unmodelled {A}.

Definition bind {A B : Type} (r : result A) (k : A -> result B) : result B :=
  match r with
  | Ok a => k a
  | Raise e => Raise e
  | Unmodelled => Unmodelled
  end.

Notation "x <- r ;; k" := (bind r (fun x => k))
  (at level 61, r at next level, right associativity).
Notation "' p <- r ;; k" := (bind r (fun z => match z with p => k end))
  (at level 61, p pattern, r at next level, right associativity).

(** ** Python values held by a structure *)

Inductive value : Type :=
| VNone
| VBool (b : bool)
| VInt (z : Z)
| VStr (s : string)
| VBytes (b : list byte).

Definition Z_of_bool (b : bool) : Z := if b then 1 else 0.

Definition bytes_eqb (a b : list byte) : bool :=
  if list_eq_dec Byte.byte_eq_dec a b then true else false.

(** [a == b] on the values above: [bool] is a subclass of [int], so
    [True == 1]; [str] and [bytes] never compare equal. *)
Definition py_eq (a b : value) : bool :=
  match a, b with
  | VNone, VNone => true
  | VBool x, VBool y => Bool.eqb x y
  | VBool x, VInt z | VInt z, VBool x => (Z_of_bool x =? z)%Z
  | VInt x, VInt y => (x =? y)%Z
  | VStr x, VStr y => String.eqb x y
  | VBytes x, VBytes y => bytes_eqb x y
  | _, _ => false
  end.

(** Truth value of an object, as [bool(v)]. *)
Definition py_truth (v : value) : bool :=
  match v with
  | VNone => false
  | VBool b => b
  | VInt z => negb (z =? 0)%Z
  | VStr s => negb (String.eqb s "")
  | VBytes b => match b with [] => false | _ => true end
  end.

(** ** The [str] methods the module uses *)

Module Str.

(** [c.isspace()] for a code point below 256. *)
Definition isspace (c : ascii) : bool :=
  let n := N_of_ascii c in
  ((9 <=? n) && (n <=? 13) || (28 <=? n) && (n <=? 32)
   || (n =? 133) || (n =? 160))%N.

Fixpoint lstrip_by (p : ascii -> bool) (s : string) : string :=
  match s with
  | EmptyString => EmptyString
  | String c s' => if p c then lstrip_by p s' else s
  end.

Fixpoint rstrip_by (p : ascii -> bool) (s : string) : string :=
  match s with
  | EmptyString => EmptyString
  | String c s' =>
      match rstrip_by p s' with
      | EmptyString => if p c then EmptyString else String c EmptyString
      | r => String c r
      end
  end.

(** [s.strip()] *)
Definition strip (s : string) : string :=
  lstrip_by isspace (rstrip_by isspace s).

(** [s.rstrip('\x00')] *)
Definition rstrip_nul (s : string) : string :=
  rstrip_by (Ascii.eqb zero) s.

(** [s[-1]], which raises [IndexError] on the empty string. *)
Fixpoint last (s : string) : result ascii :=
  match s with
  | EmptyString => Raise IndexError
  | String c EmptyString => Ok c
  | String _ s' => last s'
  end.

(** [s[:-1]] *)
Fixpoint init (s : string) : string :=
  match s with
  | EmptyString => EmptyString
  | String _ EmptyString => EmptyString
  | String c s' => String c (init s')
  end.

(** [s.endswith(c)] for a one-character suffix. *)
Definition endswith (s : string) (c : ascii) : bool :=
  match last s with
  | Ok d => Ascii.eqb d c
  | _ => false
  end.

Definition is_digit (c : ascii) : bool :=
  let n := N_of_ascii c in ((48 <=? n) && (n <=? 57))%N.

Definition digit_val (c : ascii) : Z := Z.of_N (N_of_ascii c) - 48.

(** [int(c)] on a one-character string: only a decimal digit converts. *)
Definition int_of_char (c : ascii) : result Z :=
  if is_digit c then Ok (digit_val c) else Raise ValueError.

(** ['{}'.format(n)] for an [int]. *)
Definition of_Z (n : Z) : string := NilZero.string_of_int (Z.to_int n).

(** [sep.join(l)] *)
Fixpoint join (sep : string) (l : list string) : string :=
  match l with
  | [] => ""
  | [s] => s
  | s :: l' => (s ++ sep ++ join sep l')%string
  end.

End Str.

(** ** Integers as byte strings *)

Definition byte_of_Z (z : Z) : byte :=
  byte_of_ascii (ascii_of_N (Z.to_N (z mod 256))).

Definition Z_of_byte (b : byte) : Z := Z.of_N (Byte.to_N b).

(** The [n] low bytes of [z], least significant first. *)
Fixpoint le_bytes (n : nat) (z : Z) : list byte :=
  match n with
  | O => []
  | S n' => byte_of_Z z :: le_bytes n' (z / 256)
  end.

(** The unsigned integer a byte string denotes, least significant first. *)
Fixpoint le_int (bs : list byte) : Z :=
  match bs with
  | [] => 0
  | b :: r => Z_of_byte b + 256 * le_int r
  end.

Definition zeros (n : Z) : list byte := repeat x00 (Z.to_nat n).

(** ** Python's [struct] library, as far as [NamedStruct] calls it

    The layout rules are those of the library's documentation: an optional
    first character selects byte order, size and alignment; native mode
    (the default, the only one [HasFields] asks for) uses the platform's C
    sizes and aligns every item to its C alignment. *)

Module Struct.

(** What native mode depends on. *)
Record platform : Type := {
  host_big_endian : bool;
  long_bytes : positive;     (* sizeof(long) *)
  pointer_bytes : positive;  (* sizeof(void * ), sizeof(size_t) *)
  max_alignment : positive   (* a type of size s is aligned to
                                min s max_alignment *)
}.

Definition linux_x86_64 : platform :=
  {| host_big_endian := false; long_bytes := 8; pointer_bytes := 8;
     max_alignment := 8 |}%positive.

Definition linux_i386 : platform :=
  {| host_big_endian := false; long_bytes := 4; pointer_bytes := 4;
     max_alignment := 4 |}%positive.

(** [PY_SSIZE_T_MAX] *)
Definition ssize_max (pf : platform) : Z :=
  2 ^ (8 * Z.pos (pointer_bytes pf) - 1) - 1.

(** Size and alignment mode, with the byte order it implies. *)
Inductive mode : Type :=
| Native                       (* '@', or no prefix *)
| Standard (big_endian : bool) (* '<', '>', '!', '=' *).

Inductive code : Type :=
| Cx | Cc | Cb | CB | Cbool | Ch | CH | Ci | CI | Cl | CL | Cq | CQ
| Cn | CN | Ce | Cf | Cd | Cs | Cp | CP.

Definition code_of_char (c : ascii) : option code :=
  match c with
  | "x" => Some Cx | "c" => Some Cc | "b" => Some Cb | "B" => Some CB
  | "?" => Some Cbool | "h" => Some Ch | "H" => Some CH
  | "i" => Some Ci | "I" => Some CI | "l" => Some Cl | "L" => Some CL
  | "q" => Some Cq | "Q" => Some CQ | "n" => Some Cn | "N" => Some CN
  | "e" => Some Ce | "f" => Some Cf | "d" => Some Cd
  | "s" => Some Cs | "p" => Some Cp | "P" => Some CP
  | _ => None
  end%char.

(** ['n'], ['N'] and ['P'] exist in native mode only. *)
Definition available (m : mode) (c : code) : bool :=
  match m, c with
  | Standard _, (Cn | CN | CP) => false
  | _, _ => true
  end.


Definition itemsize (pf : platform) (m : mode) (c : code) : Z :=
  match c with
  | Cx | Cc | Cb | CB | Cbool | Cs | Cp => 1
  | Ch | CH | Ce => 2
  | Ci | CI | Cf => 4
  | Cl | CL => match m with
               | Native => Z.pos (long_bytes pf)
               | Standard _ => 4
               end
  | Cq | CQ | Cd => 8
  | Cn | CN | CP => Z.pos (pointer_bytes pf)
  end.

(** 0 stands for "no alignment", as in the library's tables. *)
Definition alignment (pf : platform) (m : mode) (c : code) : Z :=
  match m, c with
  | Standard _, _ => 0
  | Native, (Cx | Cc | Cb | CB | Cs | Cp) => 0
  | Native, _ => Z.min (itemsize pf Native c) (Z.pos (max_alignment pf))
  end.

(** Bytes skipped so that an item of code [c] starts aligned at or after
    offset [size]. *)
Definition gap (pf : platform) (m : mode) (c : code) (size : Z) : Z :=
  let a := alignment pf m c in
  if (0 <? a) && (0 <? size) then (a - 1) - (size - 1) mod a else 0.

Definition big_endian (pf : platform) (m : mode) : bool :=
  match m with Native => host_big_endian pf | Standard b => b end.

(** *** Compiling a format string *)

Definition c_isspace (c : ascii) : bool :=
  let n := N_of_ascii c in (((9 <=? n) && (n <=? 13)) || (n =? 32))%N.

(** The items after the prefix: [(count, code)] in order.  [num] is the
    repeat count read so far, if digits have just been read. *)
Fixpoint parse_items (pf : platform) (m : mode) (s : string) (num : option Z)
  : result (list (Z * code)) :=
  match s with
  | EmptyString =>
      match num with
      | None => Ok []
      | Some _ => Raise StructError  (* repeat count without a code *)
      end
  | String c s' =>
      let item (n : Z) :=
        match code_of_char c with
        | Some k =>
            if available m k
            then rest <- parse_items pf m s' None ;; Ok ((n, k) :: rest)
            else Raise StructError
        | None => Raise StructError  (* bad char in struct format *)
        end in
      match num with
      | Some n =>
          if Str.is_digit c then
            let d := Str.digit_val c in
            let q := ssize_max pf / 10 in
            if (q <=? n) && ((q <? n) || (ssize_max pf mod 10 <? d))
            then Raise StructError  (* total struct size too long *)
            else parse_items pf m s' (Some (n * 10 + d))
          else item n
      | None =>
          if c_isspace c then parse_items pf m s' None
          else if Str.is_digit c then parse_items pf m s' (Some (Str.digit_val c))
          else item 1
      end
  end.

(** The optional first character. *)
Definition split_prefix (pf : platform) (s : string) : mode * string :=
  match s with
  | String "<" s' => (Standard false, s')
  | String ">" s' | String "!" s' => (Standard true, s')
  | String "=" s' => (Standard (host_big_endian pf), s')
  | String "@" s' => (Native, s')
  | _ => (Native, s)
  end%char.

(** Total size of the items laid out from offset [size]. *)
Fixpoint calcsize (pf : platform) (m : mode) (items : list (Z * code)) (size : Z)
  : result Z :=
  match items with
  | [] => Ok size
  | (num, c) :: rest =>
      let g := gap pf m c size in
      if ssize_max pf - size <? g then Raise StructError else
      let size := size + g in
      if (ssize_max pf - size) / itemsize pf m c <? num then Raise StructError
      else calcsize pf m rest (size + num * itemsize pf m c)
  end.

(** Number of values the items take: one per ['s'] or ['p'] item, none
    for ['x'], the repeat count otherwise. *)
Definition nvalues (it : Z * code) : Z :=
  match snd it with
  | Cs | Cp => 1
  | Cx => 0
  | _ => fst it
  end.

Definition count_values (items : list (Z * code)) : Z :=
  fold_right (fun it acc => nvalues it + acc) 0 items.

(** A compiled [struct.Struct]. *)
Record t : Type := {
  s_platform : platform;
  s_format : string;
  s_mode : mode;
  s_items : list (Z * code);
  s_size : Z;
  s_len : Z
}.

Definition is_ascii (c : ascii) : bool := (N_of_ascii c <? 128)%N.

Fixpoint forallb_string (p : ascii -> bool) (s : string) : bool :=
  match s with
  | EmptyString => true
  | String c s' => p c && forallb_string p s'
  end.

(** [struct.Struct(format)] for a [str] format. *)
Definition new (pf : platform) (format : string) : result t :=
  if negb (forallb_string is_ascii format) then Raise UnicodeEncodeError
  else if negb (forallb_string (fun c => negb (Ascii.eqb c zero)) format)
  then Unmodelled   (* embedded null character *)
  else
    let '(m, body) := split_prefix pf format in
    items <- parse_items pf m body None ;;
    size <- calcsize pf m items 0 ;;
    Ok {| s_platform := pf; s_format := format; s_mode := m;
          s_items := items; s_size := size; s_len := count_values items |}.

(** *** Packing *)

(** [Some true] for a signed integer code, [Some false] for an unsigned
    one, [None] for the other codes. *)
Definition signedness (c : code) : option bool :=
  match c with
  | Cb | Ch | Ci | Cl | Cq | Cn => Some true
  | CB | CH | CI | CL | CQ | CN => Some false
  | _ => None
  end.

(** The integer an argument stands for; anything but an [int] (or a
    [bool], its subclass) is refused. *)
Definition as_integer (v : value) : result Z :=
  match v with
  | VInt z => Ok z
  | VBool b => Ok (Z_of_bool b)
  | _ => Raise StructError  (* required argument is not an integer *)
  end.

Definition int_bytes (pf : platform) (m : mode) (size : Z) (z : Z) : list byte :=
  let bs := le_bytes (Z.to_nat size) z in
  if big_endian pf m then rev bs else bs.

Definition bytes_int (pf : platform) (m : mode) (bs : list byte) : Z :=
  le_int (if big_endian pf m then rev bs else bs).

Definition in_range (signed : bool) (size : Z) (z : Z) : bool :=
  if signed
  then (- 2 ^ (8 * size - 1) <=? z) && (z <? 2 ^ (8 * size - 1))
  else (0 <=? z) && (z <? 2 ^ (8 * size)).

(** One value of a code other than ['x'], ['s'] and ['p']. *)
Definition pack_scalar (pf : platform) (m : mode) (c : code) (v : value)
  : result (list byte) :=
  let size := itemsize pf m c in
  match c with
  | Cc =>
      match v with
      | VBytes [b] => Ok [b]
      | _ => Raise StructError  (* a bytes object of length 1 *)
      end
  | Cbool => Ok [byte_of_Z (Z_of_bool (py_truth v))]
  | Ce | Cf | Cd =>
      match v with
      | VInt _ | VBool _ => Unmodelled    (* floating point *)
      | _ => Raise StructError            (* not a float *)
      end
  | CP =>
      z <- as_integer v ;;
      if (- 2 ^ (8 * size - 1) <=? z) && (z <? 2 ^ (8 * size))
      then Ok (int_bytes pf m size z)
      else Raise StructError
  | _ =>
      match signedness c with
      | Some sg =>
          z <- as_integer v ;;
          if in_range sg size z then Ok (int_bytes pf m size z)
          else Raise StructError          (* argument out of range *)
      | None => Raise StructError
      end
  end.

Fixpoint pack_repeat (pf : platform) (m : mode) (c : code) (n : nat)
  (vals : list value) : result (list byte * list value) :=
  match n with
  | O => Ok ([], vals)
  | S n' =>
      match vals with
      | [] => Raise StructError
      | v :: vs =>
          bs <- pack_scalar pf m c v ;;
          ' (r, rest) <- pack_repeat pf m c n' vs ;;
          Ok (bs ++ r, rest)
      end
  end.

(** [bs] cut or null-padded to exactly [n] bytes. *)
Definition fit (n : Z) (bs : list byte) : list byte :=
  let kept := firstn (Z.to_nat n) bs in
  kept ++ zeros (n - Z.of_nat (List.length kept)).

(** One item: the bytes it emits and the values left over. *)
Definition pack_item (pf : platform) (m : mode) (it : Z * code)
  (vals : list value) : result (list byte * list value) :=
  let '(num, c) := it in
  match c with
  | Cx => Ok (zeros num, vals)
  | Cs =>
      match vals with
      | VBytes bs :: vs => Ok (fit num bs, vs)
      | _ => Raise StructError  (* argument for 's' must be a bytes object *)
      end
  | Cp =>
      match vals with
      | VBytes bs :: vs =>
          if num =? 0 then Unmodelled else
          let kept := firstn (Z.to_nat (num - 1)) bs in
          let n := Z.of_nat (List.length kept) in
          Ok (byte_of_Z (Z.min n 255) :: kept ++ zeros (num - 1 - n), vs)
      | _ => Raise StructError  (* argument for 'p' must be a bytes object *)
      end
  | _ => pack_repeat pf m c (Z.to_nat num) vals
  end.

Fixpoint pack_items (pf : platform) (m : mode) (items : list (Z * code))
  (vals : list value) (off : Z) : result (list byte) :=
  match items with
  | [] => Ok []
  | it :: rest =>
      let g := gap pf m (snd it) off in
      ' (bs, vals') <- pack_item pf m it vals ;;
      tail <- pack_items pf m rest vals'
                (off + g + fst it * itemsize pf m (snd it)) ;;
      Ok (zeros g ++ bs ++ tail)
  end.

(** [st.pack( *vals )] *)
Definition pack (st : t) (vals : list value) : result (list byte) :=
  if Z.of_nat (List.length vals) =? s_len st
  then pack_items (s_platform st) (s_mode st) (s_items st) vals 0
  else Raise StructError.  (* pack expected n items for packing *)

(** *** Unpacking *)

Definition unpack_scalar (pf : platform) (m : mode) (c : code)
  (bs : list byte) : result value :=
  let size := itemsize pf m c in
  match c with
  | Cc => Ok (VBytes bs)
  | Cbool => Ok (VBool (negb (bytes_int pf m bs =? 0)))
  | Ce | Cf | Cd => Unmodelled
  | CP => Ok (VInt (bytes_int pf m bs))
  | _ =>
      match signedness c with
      | Some true =>
          let u := bytes_int pf m bs in
          Ok (VInt (if u <? 2 ^ (8 * size - 1) then u else u - 2 ^ (8 * size)))
      | Some false => Ok (VInt (bytes_int pf m bs))
      | None => Raise StructError
      end
  end.

Fixpoint unpack_repeat (pf : platform) (m : mode) (c : code) (n : nat)
  (buf : list byte) : result (list value * list byte) :=
  match n with
  | O => Ok ([], buf)
  | S n' =>
      let size := Z.to_nat (itemsize pf m c) in
      v <- unpack_scalar pf m c (firstn size buf) ;;
      ' (vs, rest) <- unpack_repeat pf m c n' (skipn size buf) ;;
      Ok (v :: vs, rest)
  end.

Definition unpack_item (pf : platform) (m : mode) (it : Z * code)
  (buf : list byte) : result (list value * list byte) :=
  let '(num, c) := it in
  match c with
  | Cx => Ok ([], skipn (Z.to_nat num) buf)
  | Cs => Ok ([VBytes (firstn (Z.to_nat num) buf)], skipn (Z.to_nat num) buf)
  | Cp =>
      if num =? 0 then Unmodelled else
      let n := match buf with b :: _ => Z_of_byte b | [] => 0 end in
      let n := if num <=? n then num - 1 else n in
      Ok ([VBytes (firstn (Z.to_nat n) (skipn 1 buf))],
          skipn (Z.to_nat num) buf)
  | _ => unpack_repeat pf m c (Z.to_nat num) buf
  end.

Fixpoint unpack_items (pf : platform) (m : mode) (items : list (Z * code))
  (buf : list byte) (off : Z) : result (list value) :=
  match items with
  | [] => Ok []
  | it :: rest =>
      let g := gap pf m (snd it) off in
      ' (vs, buf') <- unpack_item pf m it (skipn (Z.to_nat g) buf) ;;
      tail <- unpack_items pf m rest buf'
                (off + g + fst it * itemsize pf m (snd it)) ;;
      Ok (vs ++ tail)
  end.

(** [st.unpack(buffer)] *)
Definition unpack (st : t) (buffer : list byte) : result (list value) :=
  if Z.of_nat (List.length buffer) =? s_size st
  then unpack_items (s_platform st) (s_mode st) (s_items st) buffer 0
  else Raise StructError.  (* unpack requires a buffer of n bytes *)

End Struct.

(** ** Text codecs

    [StringField] takes the name of any codec; the two below are the ones
    this development describes. *)

Inductive encoding : Type := ascii_ | latin_1.

Definition byte_is_ascii (b : byte) : bool := (Byte.to_N b <? 128)%N.

(** [s.encode(e)] *)
Definition encode (e : encoding) (s : string) : result (list byte) :=
  match e with
  | ascii_ =>
      if Struct.forallb_string Struct.is_ascii s
      then Ok (list_byte_of_string s)
      else Raise UnicodeEncodeError
  | latin_1 => Ok (list_byte_of_string s)
  end.

(** [b.decode(e)] *)
Definition decode (e : encoding) (b : list byte) : result string :=
  match e with
  | ascii_ =>
      if forallb byte_is_ascii b
      then Ok (string_of_list_byte b)
      else Raise UnicodeDecodeError
  | latin_1 => Ok (string_of_list_byte b)
  end.

(** ** Ordered dictionaries *)

Section OrderedDict.

Context {K V : Type} (keqb : K -> K -> bool).

(** [d[k]] *)
Fixpoint od_get (k : K) (d : list (K * V)) : option V :=
  match d with
  | [] => None
  | (k', v) :: d' => if keqb k k' then Some v else od_get k d'
  end.

(** [d[k] = v]: a present key keeps its place, a new one goes last. *)
Fixpoint od_set (k : K) (v : V) (d : list (K * V)) : list (K * V) :=
  match d with
  | [] => [(k, v)]
  | (k', v') :: d' =>
      if keqb k k' then (k, v) :: d' else (k', v') :: od_set k v d'
  end.

(** [OrderedDict(pairs)] *)
Definition od_of_list (pairs : list (K * V)) : list (K * V) :=
  fold_left (fun d kv => od_set (fst kv) (snd kv) d) pairs [].

Definition od_keys (d : list (K * V)) : list K := map fst d.
Definition od_values (d : list (K * V)) : list V := map snd d.

Fixpoint keys_eqb (a b : list K) : bool :=
  match a, b with
  | [], [] => true
  | x :: a', y :: b' => keqb x y && keys_eqb a' b'
  | _, _ => false
  end.

(** [d1 == d2] between two [OrderedDict]s: equal as dictionaries, and
    the keys come in the same order. *)
Definition od_eq (veq : V -> V -> bool) (d1 d2 : list (K * V)) : bool :=
  (Nat.eqb (List.length d1) (List.length d2)
   && forallb (fun kv => match od_get (fst kv) d2 with
                         | Some v' => veq (snd kv) v'
                         | None => false
                         end) d1)
  && keys_eqb (od_keys d1) (od_keys d2).

End OrderedDict.

Definition name_eqb (a b : option string) : bool :=
  match a, b with
  | Some x, Some y => String.eqb x y
  | None, None => true
  | _, _ => false
  end.

(** ** [Field], [StringField], [Padding] *)

Inductive field_class : Type := IsField | IsStringField | IsPadding.

(** A field object.  [_encoding] is read on a [StringField] only;
    [_name] and [_owner_type] are [None] until [HasFields] binds them
    ([_owner_type] holds the name of the owning class). *)
Record Field : Type := {
  f_class : field_class;
  _field_birthday : nat;
  _fmt : string;
  _strip_null : bool;
  _encoding : encoding;
  _name : option string;
  _owner_type : option string
}.

(** Creating a field reads and advances the class counter
    [Field.__n_fields_created]. *)
Definition counter : Type := nat.

(** [Field.__init__(fmt, strip_null)] *)
Definition Field_init (fmt : string) (strip_null : bool) (n : counter)
  : Field * counter :=
  ({| f_class := IsField; _field_birthday := n; _fmt := Str.strip fmt;
      _strip_null := strip_null; _encoding := ascii_;
      _name := None; _owner_type := None |}, S n).

(** [StringField.__init__(length, encoding, strip_null)] *)
Definition StringField_init (length : Z) (enc : encoding) (strip_null : bool)
  (n : counter) : Field * counter :=
  let '(f, n') := Field_init (Str.of_Z length ++ "s") false n in
  ({| f_class := IsStringField; _field_birthday := _field_birthday f;
      _fmt := _fmt f; _strip_null := strip_null; _encoding := enc;
      _name := _name f; _owner_type := _owner_type f |}, n').

(** [Padding.__init__(n_bytes)] *)
Definition Padding_init (n_bytes : Z) (n : counter) : Field * counter :=
  let '(f, n') := Field_init (Str.of_Z n_bytes ++ "x") false n in
  ({| f_class := IsPadding; _field_birthday := _field_birthday f;
      _fmt := _fmt f; _strip_null := _strip_null f; _encoding := _encoding f;
      _name := _name f; _owner_type := _owner_type f |}, n').

(** [Field.is_significant] *)
Definition is_significant (f : Field) : bool :=
  negb (Str.endswith (_fmt f) "x").

(** [Field.fmt_char] *)
Definition fmt_char (f : Field) : result ascii := Str.last (_fmt f).

(** [Field.__len__] *)
Definition Field_len (f : Field) : result Z :=
  match Str.init (_fmt f) with
  | EmptyString => Raise TypeError  (* Field is scalar and has no len(). *)
  | _ =>
      c <- Str.last (_fmt f) ;;
      length <- Str.int_of_char c ;;
      if length <? 0 then Raise TypeError else Ok (Z.abs length)
  end.

(** ** Structure types and instances *)

(** A class built by [HasFields]: its name, the ordered field table
    [_fields] and the compiled [_struct]. *)
Record struct_type : Type := {
  cls_name : string;
  _fields : list (string * Field);
  _struct : Struct.t
}.

(** An instance: its class, the [_values] mapping, and the other
    attributes set on it (its [__dict__] apart from [_values]). *)
Record instance : Type := {
  inst_type : struct_type;
  _values : list (option string * value);
  inst_dict : list (string * value)
}.

(** Any object: an instance of some [NamedStruct] subclass, or a value of
    another type. *)
Inductive pyobj : Type :=
| PStruct (i : instance)
| PValue (v : value).

(** Members of [NamedStruct] that the methods below look up by name. *)
Definition members : list string :=
  ["_fields"; "_struct"; "_values"; "_to_seq"; "_from_seq"; "pack"; "unpack"].

Definition is_dunder (n : string) : bool :=
  match n with
  | String "_" (String "_" _) => true
  | _ => false
  end%char.

(** Names whose rebinding would change the methods themselves. *)
Definition reserved (n : string) : bool :=
  is_dunder n || existsb (String.eqb n) members.

(** *** Descriptor protocol *)

(** [Field.__get__(self, obj)] *)
Definition Field_get (self : Field) (obj : instance) : result value :=
  match od_get name_eqb (_name self) (_values obj) with
  | Some v => Ok v
  | None => Raise KeyError
  end.

(** [Field.__set__(self, obj, value)] *)
Definition Field_set (self : Field) (obj : instance) (v : value)
  : result instance :=
  Ok {| inst_type := inst_type obj;
        _values := od_set name_eqb (_name self) v (_values obj);
        inst_dict := inst_dict obj |}.

(** The value [StringField.__set__] stores for [value]. *)
Definition StringField_value (self : Field) (v : value) : result value :=
  (* if isinstance(value, bytes): value = value.decode(self._encoding) *)
  v1 <- match v with
        | VBytes b => s <- decode (_encoding self) b ;; Ok (VStr s)
        | _ => Ok v
        end ;;
  (* if self._strip_null: value = value.rstrip('\x00') *)
  v2 <- (if _strip_null self then
           match v1 with
           | VStr s => Ok (VStr (Str.rstrip_nul s))
           | _ => Raise AttributeError
           end
         else Ok v1) ;;
  (* value = value.encode(self._encoding) *)
  match v2 with
  | VStr s => b <- encode (_encoding self) s ;; Ok (VBytes b)
  | _ => Raise AttributeError
  end.

(** [StringField.__set__(self, obj, value)] *)
Definition StringField_set (self : Field) (obj : instance) (v : value)
  : result instance :=
  v' <- StringField_value self v ;;
  (* super(StringField, self).__set__(obj, value) *)
  Field_set self obj v'.

(** [StringField.__get__(self, obj)]: the decoded text is computed and
    dropped; the method has no [return]. *)
Definition StringField_get (self : Field) (obj : instance) : result value :=
  v <- Field_get self obj ;;
  _ <- match v with
       | VBytes b => decode (_encoding self) b
       | _ => Raise AttributeError
       end ;;
  Ok VNone.

(** The [__get__] and [__set__] of the field's own class. *)
Definition descr_get (f : Field) (obj : instance) : result value :=
  match f_class f with
  | IsStringField => StringField_get f obj
  | IsField | IsPadding => Field_get f obj
  end.

Definition descr_set (f : Field) (obj : instance) (v : value)
  : result instance :=
  match f_class f with
  | IsStringField => StringField_set f obj v
  | IsField | IsPadding => Field_set f obj v
  end.

(** [setattr(obj, name, v)]: a field of the class is a data descriptor and
    takes the assignment; any other name lands in the instance's dict. *)
Definition setattr (obj : instance) (name : string) (v : value)
  : result instance :=
  if reserved name then Unmodelled else
  match od_get String.eqb name (_fields (inst_type obj)) with
  | Some f => descr_set f obj v
  | None =>
      Ok {| inst_type := inst_type obj; _values := _values obj;
            inst_dict := od_set String.eqb name v (inst_dict obj) |}
  end.

(** [getattr(obj, name)] for a name that is a field of the class. *)
Definition getattr_field (obj : instance) (name : string) : result value :=
  if reserved name then Unmodelled else
  match od_get String.eqb name (_fields (inst_type obj)) with
  | Some f => descr_get f obj
  | None => Raise AttributeError
  end.

(** *** The metaclass [HasFields] *)

(** A member of a class body: a field object, or anything else that is
    not a data descriptor (a method, a constant). *)
Inductive class_attr : Type :=
| AField (f : Field)
| AOther.

(** [[(n, f) for n, f in attrs.items() if isinstance(f, Field)]] *)
Fixpoint field_items (attrs : list (string * class_attr))
  : list (string * Field) :=
  match attrs with
  | [] => []
  | (n, AField f) :: rest => (n, f) :: field_items rest
  | (_, AOther) :: rest => field_items rest
  end.

(** [sorted(items, key=birthday)]: the sort is stable. *)
Fixpoint insert_by_birthday (x : string * Field) (l : list (string * Field))
  : list (string * Field) :=
  match l with
  | [] => [x]
  | y :: l' =>
      if (_field_birthday (snd x) <=? _field_birthday (snd y))%nat
      then x :: l
      else y :: insert_by_birthday x l'
  end.

Definition sorted_by_birthday (l : list (string * Field))
  : list (string * Field) :=
  fold_right insert_by_birthday [] l.

(** [field._name = n; field._owner_type = cls] *)
Definition set_binding (f : Field) (n : string) (owner : string) : Field :=
  {| f_class := f_class f; _field_birthday := _field_birthday f;
     _fmt := _fmt f; _strip_null := _strip_null f; _encoding := _encoding f;
     _name := Some n; _owner_type := Some owner |}.

(** That assignment, seen through every entry of the table that holds the
    same field object.  A field object is identified by its birthday,
    which [Field.__init__] never hands out twice. *)
Definition assign_name (b : nat) (n : string) (owner : string)
  (table : list (string * Field)) : list (string * Field) :=
  map (fun kf =>
         if Nat.eqb (_field_birthday (snd kf)) b
         then (fst kf, set_binding (snd kf) n owner)
         else kf) table.

(** [for field_name, field in cls._fields.items(): ...] *)
Definition bind_names (owner : string) (table : list (string * Field))
  : list (string * Field) :=
  fold_left (fun acc kf => assign_name (_field_birthday (snd kf)) (fst kf) owner acc)
            table table.

(** The format handed to [struct.Struct]. *)
Definition layout (table : list (string * Field)) : string :=
  Str.join " " (map _fmt (od_values table)).

(** A class body is within the model when it rebinds no member of
    [NamedStruct]: no field under a reserved name, nothing else under the
    name of a member. *)
Definition body_ok (attrs : list (string * class_attr)) : bool :=
  forallb (fun na =>
             match snd na with
             | AField _ => negb (reserved (fst na))
             | AOther => negb (existsb (String.eqb (fst na)) members)
             end) attrs.

(** [HasFields.__new__(mcs, name, bases, attrs)] for a class deriving
    directly from [NamedStruct], on platform [pf]. *)
Definition HasFields_new (pf : Struct.platform) (name : string)
  (attrs : list (string * class_attr)) : result struct_type :=
  if negb (body_ok attrs) then Unmodelled else
  let table := od_of_list String.eqb (sorted_by_birthday (field_items attrs)) in
  let table := bind_names name table in
  st <- Struct.new pf (layout table) ;;
  Ok {| cls_name := name; _fields := table; _struct := st |}.

(** The significant fields of a class, in table order. *)
Definition significant_fields (cls : struct_type) : list Field :=
  filter is_significant (od_values (_fields cls)).

(** *** [NamedStruct] *)

Fixpoint set_all (self : instance) (kwargs : list (string * value))
  : result instance :=
  match kwargs with
  | [] => Ok self
  | (n, v) :: rest => self' <- setattr self n v ;; set_all self' rest
  end.

(** Whether a keyword has the name of the one named parameter of
    [__init__(self, **kwargs)]. *)
Definition binds_self (kwargs : list (string * value)) : bool :=
  existsb (fun kv => String.eqb (fst kv) "self") kwargs.

(** [cls( **kwargs )], that is [NamedStruct.__init__].  The call binds
    [self] to the new object, so a keyword named [self] gives that
    parameter a second value: the call raises [TypeError] before the body
    runs. *)
Definition NamedStruct_init (cls : struct_type) (kwargs : list (string * value))
  : result instance :=
  if binds_self kwargs then Raise TypeError else
  let self :=
    {| inst_type := cls;
       _values := od_of_list name_eqb
                    (map (fun f => (_name f, VNone)) (significant_fields cls));
       inst_dict := [] |} in
  set_all self kwargs.

(** [self._to_seq()] *)
Definition _to_seq (self : instance) : list value := od_values (_values self).

(** The keyword dictionary [_from_seq] builds; a keyword has to be a
    string. *)
Fixpoint seq_kwargs (fs : list Field) (new_values : list value)
  (acc : list (string * value)) : result (list (string * value)) :=
  match fs, new_values with
  | f :: fs', v :: vs' =>
      match _name f with
      | Some n => seq_kwargs fs' vs' (od_set String.eqb n v acc)
      | None => Raise TypeError
      end
  | _, _ => Ok acc
  end.

(** [cls._from_seq(new_values)]: the keywords go through the call of the
    class, and with it through the binding of [self]. *)
Definition _from_seq (cls : struct_type) (new_values : list value)
  : result instance :=
  kwargs <- seq_kwargs (significant_fields cls) new_values [] ;;
  NamedStruct_init cls kwargs.

(** [self.pack()] *)
Definition pack (self : instance) : result (list byte) :=
  Struct.pack (_struct (inst_type self)) (_to_seq self).

(** [cls.unpack(buffer)] *)
Definition unpack (cls : struct_type) (buffer : list byte) : result instance :=
  new_values <- Struct.unpack (_struct cls) buffer ;;
  _from_seq cls new_values.

(** [self.__eq__(other)] *)
Definition NamedStruct_eq (self : instance) (other : pyobj) : bool :=
  match other with
  | PValue _ => false
  | PStruct o => od_eq name_eqb py_eq (_values self) (_values o)
  end.

(** *** Declaring a class *)

(** The constructor call on the right of one line of a class body. *)
Inductive ctor : Type :=
| NewField (fmt : string) (strip_null : bool)
| NewStringField (length : Z) (enc : encoding) (strip_null : bool)
| NewPadding (n_bytes : Z).

Definition construct (c : ctor) : counter -> Field * counter :=
  match c with
  | NewField fmt sn => Field_init fmt sn
  | NewStringField len enc sn => StringField_init len enc sn
  | NewPadding nb => Padding_init nb
  end.

(** Running the lines [name = ctor] of a class body from top to bottom. *)
Fixpoint declare (body : list (string * ctor)) (n : counter)
  : list (string * Field) * counter :=
  match body with
  | [] => ([], n)
  | (name, c) :: rest =>
      let '(f, n1) := construct c n in
      let '(fs, n2) := declare rest n1 in
      ((name, f) :: fs, n2)
  end.

(** ** Notions used in the statements *)

(** The attribute mapping of a class body made of field declarations
    only, in the order of its lines. *)
Definition attrs_of (body : list (string * ctor)) (n : counter)
  : list (string * class_attr) :=
  map (fun nf => (fst nf, AField (snd nf))) (fst (declare body n)).

(** Whether [n] names a field of the class. *)
Definition is_field (cls : struct_type) (n : string) : bool :=
  match od_get String.eqb n (_fields cls) with
  | Some _ => true
  | None => false
  end.

(** Two constructions end alike: both return, with the same class and the
    same [_values], or both raise the same exception. *)
Definition same_outcome (r1 r2 : result instance) : Prop :=
  match r1, r2 with
  | Ok a, Ok b => inst_type a = inst_type b /\ _values a = _values b
  | Raise e1, Raise e2 => e1 = e2
  | _, _ => False
  end.

(** An entry of the field table once its field is bound to its own key. *)
Definition bound (owner : string) (kf : string * Field) : string * Field :=
  (fst kf, set_binding (snd kf) (fst kf) owner).

(** The format a constructor call gives its field. *)
Definition declared_fmt (nc : string * ctor) : string :=
  _fmt (fst (construct (snd nc) 0%nat)).

(** Whether the field a constructor call makes is significant. *)
Definition declared_significant (nc : string * ctor) : bool :=
  is_significant (fst (construct (snd nc) 0%nat)).

Definition birthday_le (x y : string * Field) : Prop :=
  (_field_birthday (snd x) <= _field_birthday (snd y))%nat.

Definition birthday_lt (x y : string * Field) : Prop :=
  (_field_birthday (snd x) < _field_birthday (snd y))%nat.




(** Where a layout started at [off] ends, overflow apart. *)
Fixpoint end_offset (pf : Struct.platform) (m : Struct.mode)
  (items : list (Z * Struct.code)) (off : Z) : Z :=
  match items with
  | [] => off
  | it :: rest =>
      end_offset pf m rest
        (off + Struct.gap pf m (snd it) off
         + fst it * Struct.itemsize pf m (snd it))
  end.

(** The items a field's own format compiles to, in native mode. *)
Definition field_layout (pf : Struct.platform) (f : Field)
  : result (list (Z * Struct.code)) :=
  Struct.parse_items pf Struct.Native (_fmt f) None.

(** The byte width of a field on its own: the size of its format. *)
Definition field_width (pf : Struct.platform) (f : Field) : result Z :=
  items <- field_layout pf f ;;
  Struct.calcsize pf Struct.Native items 0.

(** The class is the one [HasFields] compiles from its field table. *)
Definition compiled (pf : Struct.platform) (cls : struct_type) : Prop :=
  Struct.new pf (layout (_fields cls)) = Ok (_struct cls).

Definition sum_Z (l : list Z) : Z := fold_right Z.add 0 l.

(** The bytes an item occupies, alignment apart. *)
Definition item_width (pf : Struct.platform) (it : Z * Struct.code) : Z :=
  fst it * Struct.itemsize pf Struct.Native (snd it).


(** ** Values in range

    What "set to an in-range value" means for a field whose format is the
    one item [it]. *)

(** The value the field's [__set__] stores for [v]. *)
Definition set_value (f : Field) (v : value) : result value :=
  match f_class f with
  | IsStringField => StringField_value f v
  | IsField | IsPadding => Ok v
  end.

Definition is_string_field (f : Field) : bool :=
  match f_class f with IsStringField => true | _ => false end.

Definition bytes_length (b : list byte) : Z := Z.of_nat (List.length b).

(** [v] is in range for field [f] of item [it]:
    - an integer code takes one [int] within the bounds of its C type;
    - ['?'] takes a [bool], or the integers 0 and 1 that equal one;
    - ['c'] takes one byte;
    - a byte run ['Ns'] takes [bytes] that fill its width; in a string
      field the bytes decode in the field's codec and, with [strip_null],
      may be shorter than the width if they end in no null byte;
    - a Pascal string ['Np'] takes [bytes] that leave room for the count;
    - floating-point codes and padding take no value here. *)
Definition fits (pf : Struct.platform) (f : Field) (it : Z * Struct.code)
  (v : value) : bool :=
  let num := fst it in
  let size := Struct.itemsize pf Struct.Native (snd it) in
  match snd it with
  | Struct.Cx | Struct.Ce | Struct.Cf | Struct.Cd => false
  | Struct.Cs =>
      match v with
      | VBytes b =>
          if is_string_field f then
            match decode (_encoding f) b with
            | Ok s =>
                if _strip_null f
                then (bytes_length b <=? num) && String.eqb (Str.rstrip_nul s) s
                else bytes_length b =? num
            | _ => false
            end
          else bytes_length b =? num
      | _ => false
      end
  | Struct.Cp =>
      negb (is_string_field f)
      && match v with
         | VBytes b => (bytes_length b <? num) && (bytes_length b <=? 255)
         | _ => false
         end
  | Struct.Cc =>
      negb (is_string_field f) && (num =? 1)
      && match v with VBytes [_] => true | _ => false end
  | Struct.Cbool =>
      negb (is_string_field f) && (num =? 1) && py_eq (VBool (py_truth v)) v
  | Struct.CP =>
      negb (is_string_field f) && (num =? 1)
      && match Struct.as_integer v with
         | Ok z => (0 <=? z) && (z <? 2 ^ (8 * size))
         | _ => false
         end
  | c =>
      negb (is_string_field f) && (num =? 1)
      && match Struct.signedness c, Struct.as_integer v with
         | Some sg, Ok z => Struct.in_range sg size z
         | _, _ => false
         end
  end.

(** The value mapping [vals] holds, in table order, one in-range value
    under the name of each significant field of the table [fs], whose
    fields compile to the items [its], one each; the other fields are
    padding. *)
Fixpoint in_range (pf : Struct.platform) (fs : list (string * Field))
  (its : list (Z * Struct.code)) (vals : list (option string * value)) : Prop :=
  match fs, its with
  | [], [] => vals = []
  | kf :: fs', it :: its' =>
      field_layout pf (snd kf) = Ok [it]
      /\ _name (snd kf) = Some (fst kf)
      /\ reserved (fst kf) = false
      /\ if is_significant (snd kf)
         then match vals with
              | kv :: vals' =>
                  fst kv = Some (fst kf)
                  /\ fits pf (snd kf) it (snd kv) = true
                  /\ in_range pf fs' its' vals'
              | [] => False
              end
         else snd it = Struct.Cx /\ in_range pf fs' its' vals
  | _, _ => False
  end.


(** ** Example declarations

    [Foo] is the class of the module's docstring, with a string field
    added; the other classes are small ones that the statements below are
    evaluated on.  All are built on [Struct.linux_x86_64]. *)

(** The value of a call known to return. *)
Definition returned {A : Type} (default : A) (r : result A) : A :=
  match r with Ok a => a | _ => default end.

Definition no_struct : Struct.t :=
  {| Struct.s_platform := Struct.linux_x86_64; Struct.s_format := "";
     Struct.s_mode := Struct.Native; Struct.s_items := [];
     Struct.s_size := 0; Struct.s_len := 0 |}.

Definition no_class : struct_type :=
  {| cls_name := ""; _fields := []; _struct := no_struct |}.

Definition no_instance : instance :=
  {| inst_type := no_class; _values := []; inst_dict := [] |}.

Definition no_field : Field := fst (Field_init "" false 0%nat).

(** The field object bound to [name] in a class. *)
Definition field_named (cls : struct_type) (name : string) : Field :=
  match od_get String.eqb name (_fields cls) with
  | Some f => f
  | None => no_field
  end.

Definition Foo_body : list (string * ctor) :=
  [("a", NewField "L" false); ("dummy", NewPadding 12);
   ("b", NewField "B" false); ("s", NewStringField 8 ascii_ true)].

Definition Foo : result struct_type :=
  HasFields_new Struct.linux_x86_64 "Foo" (attrs_of Foo_body 0%nat).

(** [foo = Foo(a=0x1234, b=0xab, s='hi')] *)
Definition foo : result instance :=
  cls <- Foo ;;
  NamedStruct_init cls [("a", VInt 4660); ("b", VInt 171); ("s", VStr "hi")].

Definition Foo_cls : struct_type := Eval vm_compute in returned no_class Foo.
Definition foo_obj : instance := Eval vm_compute in returned no_instance foo.

Definition nul_terminated (s : string) : string := s ++ String zero "".

(** [A] and [B] declare the same field name with different codes. *)
Definition ClassA : result struct_type :=
  HasFields_new Struct.linux_x86_64 "A" (attrs_of [("x", NewField "B" false)] 0%nat).

Definition ClassB : result struct_type :=
  HasFields_new Struct.linux_x86_64 "B" (attrs_of [("x", NewField "H" false)] 1%nat).


(** [Pair] has a byte followed by a short. *)
Definition Pair : result struct_type :=
  HasFields_new Struct.linux_x86_64 "Pair"
    (attrs_of [("lo", NewField "B" false); ("hi", NewField "H" false)] 0%nat).

(** [Label] has a single four-byte string field. *)
Definition Label : result struct_type :=
  HasFields_new Struct.linux_x86_64 "Label"
    (attrs_of [("text", NewStringField 4 ascii_ false)] 0%nat).

Definition Label_cls : struct_type := Eval vm_compute in returned no_class Label.

(** [Label()] *)
Definition empty_label : instance :=
  Eval vm_compute in returned no_instance (NamedStruct_init Label_cls []).

(** ** Rendering: [repr] of a value, [Field.__str__], [NamedStruct.__str__] *)

Definition backslash : ascii := ascii_of_N 92.
Definition squote : ascii := ascii_of_N 39.
Definition dquote : ascii := ascii_of_N 34.
Definition newline : string := String (ascii_of_N 10) "".

Fixpoint contains (c : ascii) (s : string) : bool :=
  match s with
  | EmptyString => false
  | String d s' => Ascii.eqb c d || contains c s'
  end.

Definition hex_digit (n : N) : ascii :=
  match String.get (N.to_nat n) "0123456789abcdef" with
  | Some c => c
  | None => "0"%char
  end.

(** [\xhh] *)
Definition escape_hex (n : N) : string :=
  String backslash
    (String "x" (String (hex_digit (n / 16)) (String (hex_digit (n mod 16)) ""))).

(** The quote [repr] wraps a string in: a double quote when the string
    holds a single quote and no double quote, a single quote otherwise. *)
Definition repr_quote (s : string) : ascii :=
  if contains squote s && negb (contains dquote s) then dquote else squote.

(** One character of the [repr] of a [bytes] ([text = false]) or of a
    [str] ([text = true]) wrapped in quote [q]. *)
Definition repr_char (text : bool) (q : ascii) (c : ascii) : string :=
  let n := N_of_ascii c in
  if Ascii.eqb c q || Ascii.eqb c backslash then String backslash (String c "")
  else if (n =? 9)%N then String backslash "t"
  else if (n =? 10)%N then String backslash "n"
  else if (n =? 13)%N then String backslash "r"
  else if (n <? 32)%N || (n =? 127)%N then escape_hex n
  else if (n <? 127)%N then String c ""
  else if text && negb ((n <=? 160)%N || (n =? 173)%N) then String c ""
  else escape_hex n.

Fixpoint repr_chars (text : bool) (q : ascii) (s : string) : string :=
  match s with
  | EmptyString => EmptyString
  | String c s' => (repr_char text q c ++ repr_chars text q s')%string
  end.

(** [repr(v)] *)
Definition py_repr (v : value) : string :=
  match v with
  | VNone => "None"
  | VBool true => "True"
  | VBool false => "False"
  | VInt z => Str.of_Z z
  | VStr s =>
      let q := repr_quote s in
      String q (repr_chars true q s ++ String q "")
  | VBytes b =>
      let s := string_of_list_byte b in
      let q := repr_quote s in
      String "b" (String q (repr_chars false q s ++ String q ""))
  end.

(** The table of C type names in [Field.__str__]; a character that is no
    key of it raises [KeyError]. *)
Definition c_type_of (c : ascii) : result string :=
  match c with
  | "x"%char => Ok "char"
  | "c"%char => Ok "char"
  | "b"%char => Ok "char"
  | "B"%char => Ok "unsigned char"
  | "?"%char => Ok "bool"
  | "h"%char => Ok "short"
  | "H"%char => Ok "unsigned short"
  | "i"%char => Ok "int"
  | "I"%char => Ok "unsigned int"
  | "l"%char => Ok "long"
  | "L"%char => Ok "unsigned long"
  | "q"%char => Ok "long long"
  | "Q"%char => Ok "unsigned long long"
  | "f"%char => Ok "float"
  | "d"%char => Ok "double"
  | "s"%char => Ok "char"
  | "p"%char => Ok "char"
  | "P"%char => Ok "void *"
  | _ => Raise KeyError
  end.

(** ['{}'.format(self._name)] *)
Definition name_text (n : option string) : string :=
  match n with
  | Some s => s
  | None => "None"
  end.

(** [Field.__str__] *)
Definition Field_str (self : Field) : result string :=
  (* n, fmt_char = len(self), self.fmt_char *)
  n <- Field_len self ;;
  c <- fmt_char self ;;
  c_type <- c_type_of c ;;
  let c_type :=
    if n =? 0 then c_type else (c_type ++ "[" ++ Str.of_Z n ++ "]")%string in
  Ok (if is_significant self
      then (c_type ++ " " ++ name_text (_name self))%string
      else c_type).

(** The lines of [NamedStruct.__str__], one per field of the table: the
    value text is evaluated first, then the field is formatted through
    its [__str__]. *)
Fixpoint str_lines (self : instance) (fields : list Field)
  : result (list string) :=
  match fields with
  | [] => Ok []
  | field :: rest =>
      value <- (if is_significant field
                then match od_get name_eqb (_name field) (_values self) with
                     | Some v => Ok (" = " ++ py_repr v)%string
                     | None => Raise KeyError
                     end
                else Ok "") ;;
      text <- Field_str field ;;
      lines <- str_lines self rest ;;
      Ok (("    " ++ text ++ value ++ ";")%string :: lines)
  end.

(** [NamedStruct.__str__] *)
Definition NamedStruct_str (self : instance) : result string :=
  lines <- str_lines self (od_values (_fields (inst_type self))) ;;
  Ok (cls_name (inst_type self) ++ " {" ++ newline
      ++ Str.join newline lines ++ newline ++ "}")%string.

(** ** Classes whose fields are bound to their own names *)

(** Every entry of the field table holds a field bound to the entry's
    key, and no key comes twice: what [HasFields] leaves when no field
    object sits under two names. *)
Definition bound_class (cls : struct_type) : Prop :=
  NoDup (od_keys (_fields cls))
  /\ Forall (fun kf => _name (snd kf) = Some (fst kf)) (_fields cls).

(** No keyword names a field that is not significant. *)
Definition names_significant (cls : struct_type) (kwargs : list (string * value))
  : Prop :=
  forall n, In n (map fst kwargs) ->
    match od_get String.eqb n (_fields cls) with
    | Some f => is_significant f = true
    | None => True
    end.

(** * Properties *)

(** ** Basic facts *)

Lemma Foo_built : Foo = Ok Foo_cls /\ foo = Ok foo_obj.
Proof. split; reflexivity. Qed.

Lemma Label_built :
  Label = Ok Label_cls /\ NamedStruct_init Label_cls [] = Ok empty_label.
Proof. split; reflexivity. Qed.

Lemma name_eqb_eq (a b : option string) : name_eqb a b = true <-> a = b.
Proof.
  destruct a as [x|], b as [y|]; simpl; try (split; congruence).
  rewrite String.eqb_eq. split; congruence.
Qed.


Lemma bind_Ok {A B} (r : result A) (k : A -> result B) (b : B) :
  bind r k = Ok b -> exists a, r = Ok a /\ k a = Ok b.
Proof. destruct r; simpl; try discriminate. eauto. Qed.

(** ** Reading a string field (C4) and the length of a field (C9) *)

(** C4 (the code misses it): on an instance that holds bytes [b] for a
    string field, reading the field evaluates the decoded text and then
    returns [None], not the text. *)
Theorem StringField_get_returns_None (f : Field) (obj : instance)
    (b : list byte) (s : string) :
  f_class f = IsStringField ->
  od_get name_eqb (_name f) (_values obj) = Some (VBytes b) ->
  decode (_encoding f) b = Ok s ->
  descr_get f obj = Ok VNone /\ descr_get f obj <> Ok (VStr s).
Proof.
  intros Hc Hv Hd. unfold descr_get, StringField_get, Field_get.
  rewrite Hc, Hv. simpl. rewrite Hd. simpl. split; [reflexivity|discriminate].
Qed.

Lemma Field_len_scalar (f : Field) :
  Str.init (_fmt f) = "" -> Field_len f = Raise TypeError.
Proof. intros H. unfold Field_len. rewrite H. reflexivity. Qed.

(** C9 (the code misses it): for a field whose format is a count followed
    by a code character, [__len__] converts the code character, not the
    count, and raises [ValueError]; for a one-character format it raises
    [TypeError]. *)
Theorem Field_len_byte_run (f : Field) (c : ascii) :
  Str.init (_fmt f) <> "" ->
  Str.last (_fmt f) = Ok c ->
  Str.is_digit c = false ->
  Field_len f = Raise ValueError.
Proof.
  intros Hi Hl Hd. unfold Field_len.
  destruct (Str.init (_fmt f)) eqn:E; [congruence|].
  rewrite Hl. simpl. unfold Str.int_of_char. rewrite Hd. reflexivity.
Qed.

Lemma StringField_get_returns_None_witness :
  descr_get (field_named Foo_cls "s") foo_obj = Ok VNone
  /\ descr_get (field_named Foo_cls "s") foo_obj <> Ok (VStr "hi").
Proof.
  apply (StringField_get_returns_None (field_named Foo_cls "s") foo_obj
           [x68; x69] "hi"); reflexivity.
Defined.

Lemma Field_len_byte_run_witness :
  Field_len (field_named Foo_cls "s") = Raise ValueError.
Proof.
  apply (Field_len_byte_run (field_named Foo_cls "s") "s"%char);
    [discriminate | reflexivity | reflexivity].
Defined.

(** ** Ordered dictionaries *)

Section OrderedDictFacts.

Context {K V : Type} (keqb : K -> K -> bool).
Hypothesis keqb_eq : forall a b, keqb a b = true <-> a = b.

Lemma keqb_refl (a : K) : keqb a a = true.
Proof. apply keqb_eq. reflexivity. Qed.

Lemma keqb_neq (a b : K) : a <> b -> keqb a b = false.
Proof.
  intros H. destruct (keqb a b) eqn:E; [|reflexivity].
  apply keqb_eq in E. contradiction.
Qed.

Lemma keys_eqb_eq (a b : list K) : keys_eqb keqb a b = true <-> a = b.
Proof.
  revert b. induction a as [|x a IH]; intros [|y b]; simpl;
    try (split; congruence).
  rewrite andb_true_iff, keqb_eq, IH. split.
  - intros [-> ->]. reflexivity.
  - intros E. inversion E. auto.
Qed.

Lemma od_get_not_in (k : K) (d : list (K * V)) :
  ~ In k (od_keys d) -> od_get keqb k d = None.
Proof.
  induction d as [|[k' v] d IH]; simpl; intros H; [reflexivity|].
  rewrite keqb_neq by (intros ->; apply H; auto). apply IH. tauto.
Qed.

Lemma od_get_in (k : K) (v : V) (d : list (K * V)) :
  NoDup (od_keys d) -> In (k, v) d -> od_get keqb k d = Some v.
Proof.
  induction d as [|[k' v'] d IH]; simpl; intros Hnd Hin; [contradiction|].
  inversion Hnd as [|? ? Hni Hnd']; subst.
  destruct Hin as [E|Hin].
  - inversion E; subst. rewrite keqb_refl. reflexivity.
  - rewrite keqb_neq.
    + apply IH; assumption.
    + intros ->. apply Hni. unfold od_keys.
      change k' with (fst (k', v)). apply in_map. assumption.
Qed.

Lemma od_set_keys_in (k : K) (v : V) (d : list (K * V)) :
  In k (od_keys d) -> od_keys (od_set keqb k v d) = od_keys d.
Proof.
  induction d as [|[k' v'] d IH]; simpl; intros H; [contradiction|].
  destruct (keqb k k') eqn:E.
  - apply keqb_eq in E. subst. reflexivity.
  - simpl. f_equal. apply IH. destruct H as [H|H]; [|assumption].
    subst. rewrite keqb_refl in E. discriminate.
Qed.

Lemma od_set_keys_new (k : K) (v : V) (d : list (K * V)) :
  ~ In k (od_keys d) -> od_set keqb k v d = d ++ [(k, v)].
Proof.
  induction d as [|[k' v'] d IH]; simpl; intros H; [reflexivity|].
  rewrite keqb_neq by (intros ->; apply H; auto).
  f_equal. apply IH. tauto.
Qed.

(** A list of pairs with distinct keys is its own [OrderedDict]. *)
Lemma od_of_list_nodup (l : list (K * V)) :
  NoDup (od_keys l) -> od_of_list keqb l = l.
Proof.
  unfold od_of_list.
  assert (G : forall acc, NoDup (od_keys (acc ++ l)) ->
            fold_left (fun d kv => od_set keqb (fst kv) (snd kv) d) l acc
            = acc ++ l).
  { induction l as [|[k v] l IH]; intros acc Hnd; simpl.
    - rewrite app_nil_r. reflexivity.
    - rewrite od_set_keys_new.
      + rewrite IH; rewrite <- app_assoc; [reflexivity|assumption].
      + unfold od_keys in *. rewrite map_app in Hnd. simpl in Hnd.
        apply NoDup_remove_2 in Hnd. intros Hin. apply Hnd.
        apply in_or_app. left. assumption. }
  intros Hnd. apply (G []). assumption.
Qed.

(** Two ordered dictionaries are equal exactly when they list the same
    keys in the same order with equal values. *)
Lemma od_eq_spec (veq : V -> V -> bool) (d1 d2 : list (K * V)) :
  NoDup (od_keys d1) ->
  od_eq keqb veq d1 d2 = true <->
  Forall2 (fun a b => fst a = fst b /\ veq (snd a) (snd b) = true) d1 d2.
Proof.
  intros Hnd. unfold od_eq.
  rewrite !andb_true_iff, keys_eqb_eq, Nat.eqb_eq, forallb_forall.
  split.
  - intros [[_ Hall] Hk].
    assert (G : forall e1 e2, od_keys e1 = od_keys e2 ->
              (forall x, In x e1 -> In x d1) ->
              (forall k v, In (k, v) e2 -> od_get keqb k d2 = Some v) ->
              Forall2 (fun a b => fst a = fst b /\ veq (snd a) (snd b) = true)
                      e1 e2).
    { induction e1 as [|[k v] e1 IH]; intros [|[k' v'] e2] Hke Hin Hget;
        simpl in Hke; try discriminate; constructor.
      - inversion Hke; subst. simpl. split; [reflexivity|].
        specialize (Hall (k', v) (Hin _ (or_introl eq_refl))). simpl in Hall.
        rewrite (Hget k' v' (or_introl eq_refl)) in Hall. assumption.
      - inversion Hke. apply IH; auto.
        + intros x Hx. apply Hin. right. assumption.
        + intros k0 v0 Hk0. apply Hget. right. assumption. }
    apply G; auto.
    intros k v Hin. apply od_get_in; [|assumption].
    rewrite <- Hk. assumption.
  - intros HF.
    assert (Hk : od_keys d1 = od_keys d2).
    { clear Hnd. induction HF as [|[k v] [k' v'] ? ? [E _] _ IH]; simpl in *;
        [reflexivity|]. subst. f_equal. assumption. }
    split; [split|assumption].
    + apply Forall2_length in HF. assumption.
    + intros [k v] Hin. simpl.
      assert (G : exists v', In (k, v') d2 /\ veq v v' = true).
      { clear Hnd Hk. induction HF as [|[k1 v1] [k2 v2] ? ? [E Hv] _ IH];
          simpl in *; [contradiction|]. subst.
        destruct Hin as [Hin|Hin].
        - inversion Hin; subst. eauto.
        - destruct (IH Hin) as (v' & H1 & H2). eauto. }
      destruct G as (v' & H1 & H2).
      rewrite (od_get_in k v' d2); [assumption| |assumption].
      rewrite <- Hk. assumption.
Qed.

End OrderedDictFacts.

(** ** Equality of instances (C2) *)

(** C2, as the code has it: an instance equals another object exactly
    when that object is an instance of some structure type (the same or
    another one) and the two value mappings list the same keys in the same
    order with equal values. *)
Theorem NamedStruct_eq_spec (self : instance) (other : pyobj) :
  NoDup (od_keys (_values self)) ->
  NamedStruct_eq self other = true <->
  exists o, other = PStruct o
    /\ Forall2 (fun a b => fst a = fst b /\ py_eq (snd a) (snd b) = true)
               (_values self) (_values o).
Proof.
  intros Hnd. destruct other as [o|v]; simpl.
  - rewrite (od_eq_spec name_eqb name_eqb_eq py_eq _ _ Hnd). split.
    + intros H. exists o. auto.
    + intros (o' & E & H). inversion E; subst. assumption.
  - split; [discriminate|]. intros (o & E & _). discriminate.
Qed.

Lemma NamedStruct_eq_spec_witness :
  NamedStruct_eq foo_obj (PStruct foo_obj) = true <->
  exists o, PStruct foo_obj = PStruct o
    /\ Forall2 (fun a b => fst a = fst b /\ py_eq (snd a) (snd b) = true)
               (_values foo_obj) (_values o).
Proof.
  apply (NamedStruct_eq_spec foo_obj (PStruct foo_obj)).
  repeat constructor; simpl; intuition discriminate.
Defined.

(** C2, as stated, fails: an [A] and a [B], two different structure
    types, holding the same value are equal. *)
Lemma eq_across_types_counterexample :
  (ca <- ClassA ;; cb <- ClassB ;;
   a <- NamedStruct_init ca [("x", VInt 1)] ;;
   b <- NamedStruct_init cb [("x", VInt 1)] ;;
   Ok (NamedStruct_eq a (PStruct b),
       String.eqb (cls_name (inst_type a)) (cls_name (inst_type b)),
       String.eqb (layout (_fields (inst_type a)))
                  (layout (_fields (inst_type b)))))
  = Ok (true, false, false).
Proof. vm_compute. reflexivity. Qed.

(** ** Setting a string field (C5) *)

Lemma descr_set_text (f : Field) (obj : instance) (s : string) :
  f_class f = IsStringField ->
  descr_set f obj (VStr s)
  = (b <- encode (_encoding f)
                 (if _strip_null f then Str.rstrip_nul s else s) ;;
     Field_set f obj (VBytes b)).
Proof.
  intros Hc. unfold descr_set, StringField_set, StringField_value.
  rewrite Hc. simpl.
  destruct (_strip_null f); simpl;
    match goal with |- context [encode ?e ?t] => destruct (encode e t) end;
    reflexivity.
Qed.




(** ** Construction from named values (C7) *)

Lemma encode_modelled (e : encoding) (s : string) : encode e s <> Unmodelled.
Proof.
  unfold encode. destruct e; [destruct (Struct.forallb_string _ _)|]; discriminate.
Qed.

Lemma decode_modelled (e : encoding) (b : list byte) : decode e b <> Unmodelled.
Proof.
  unfold decode. destruct e; [destruct (forallb _ _)|]; discriminate.
Qed.

Lemma StringField_value_modelled (f : Field) (v : value) :
  StringField_value f v <> Unmodelled.
Proof.
  unfold StringField_value.
  assert (G : forall v1 : value,
             (v2 <- (if _strip_null f
                     then match v1 with
                          | VStr s => Ok (VStr (Str.rstrip_nul s))
                          | _ => Raise AttributeError
                          end
                     else Ok v1) ;;
              match v2 with
              | VStr s => b <- encode (_encoding f) s ;; Ok (VBytes b)
              | _ => Raise AttributeError
              end) <> Unmodelled).
  { intros v1. destruct (_strip_null f), v1; simpl; try discriminate;
      match goal with |- context [encode ?e ?t] =>
        pose proof (encode_modelled e t); destruct (encode e t) end;
      simpl; congruence. }
  destruct v as [|b0|z|s|bs];
    [exact (G VNone) | exact (G (VBool b0)) | exact (G (VInt z))
    | exact (G (VStr s)) | ].
  pose proof (decode_modelled (_encoding f) bs).
  destruct (decode (_encoding f) bs) as [s| |]; simpl; try congruence.
  exact (G (VStr s)).
Qed.

Lemma descr_set_values (f : Field) (a b : instance) (v : value) :
  inst_type a = inst_type b -> _values a = _values b ->
  same_outcome (descr_set f a v) (descr_set f b v).
Proof.
  intros Ht Hv. unfold descr_set, StringField_set, Field_set.
  destruct (f_class f); simpl; try (rewrite Ht, Hv; split; reflexivity).
  pose proof (StringField_value_modelled f v) as Hm.
  destruct (StringField_value f v); simpl; try reflexivity.
  - rewrite Ht, Hv. split; reflexivity.
  - congruence.
Qed.

Lemma set_all_skips_unknown (cls : struct_type) (kwargs : list (string * value)) :
  (forall n, In n (map fst kwargs) -> reserved n = false) ->
  forall a b, inst_type a = cls -> inst_type b = cls -> _values a = _values b ->
  same_outcome (set_all a kwargs)
               (set_all b (filter (fun kv => is_field cls (fst kv)) kwargs)).
Proof.
  induction kwargs as [|[n v] kwargs IH]; intros Hres a b Ha Hb Hv; simpl.
  - split; congruence.
  - assert (Hn : reserved n = false) by (apply Hres; simpl; auto).
    assert (Hres' : forall m, In m (map fst kwargs) -> reserved m = false)
      by (intros m Hm; apply Hres; simpl; auto).
    unfold is_field at 1. unfold setattr at 1. rewrite Hn, Ha.
    destruct (od_get String.eqb n (_fields cls)) as [f|] eqn:Ef; simpl.
    + unfold setattr. rewrite Hn, Hb, Ef.
      pose proof (descr_set_values f a b v (eq_trans Ha (eq_sym Hb)) Hv) as Hs.
      assert (Hty : forall x i, descr_set f x v = Ok i -> inst_type i = inst_type x).
      { intros x i. unfold descr_set, StringField_set, Field_set.
        destruct (f_class f); simpl; try (intros E; inversion E; reflexivity).
        intros E. apply bind_Ok in E. destruct E as (? & _ & E).
        inversion E. reflexivity. }
      destruct (descr_set f a v) as [a'|e|] eqn:Ea;
        destruct (descr_set f b v) as [b'|e'|] eqn:Eb; simpl in *;
        try contradiction; try assumption.
      apply IH; try assumption.
      * rewrite (Hty _ _ Ea). assumption.
      * rewrite (Hty _ _ Eb). assumption.
      * tauto.
    + apply IH; simpl; solve [assumption | reflexivity].
Qed.

Lemma binds_self_spec (kwargs : list (string * value)) :
  binds_self kwargs = true <-> In "self" (map fst kwargs).
Proof.
  unfold binds_self. rewrite existsb_exists. split.
  - intros ([n v] & Hin & E). apply String.eqb_eq in E. simpl in E. subst n.
    apply (in_map fst) in Hin. exact Hin.
  - intros Hin. apply in_map_iff in Hin. destruct Hin as ([n v] & E & Hin).
    simpl in E. subst n. exists ("self", v). split; [assumption|reflexivity].
Qed.

Lemma binds_self_false (kwargs : list (string * value)) :
  ~ In "self" (map fst kwargs) -> binds_self kwargs = false.
Proof.
  intros H. destruct (binds_self kwargs) eqn:E; [|reflexivity].
  apply binds_self_spec in E. contradiction.
Qed.

Lemma binds_self_filter (p : string * value -> bool)
    (kwargs : list (string * value)) :
  binds_self kwargs = false -> binds_self (filter p kwargs) = false.
Proof.
  intros H. apply binds_self_false. intros Hin.
  apply in_map_iff in Hin. destruct Hin as (kv & E & Hin).
  apply filter_In in Hin. destruct Hin as [Hin _].
  assert (Hs : In "self" (map fst kwargs)).
  { rewrite <- E. apply in_map. assumption. }
  apply binds_self_spec in Hs. congruence.
Qed.

(** What a construction that returned has run. *)
Lemma NamedStruct_init_Ok (cls : struct_type) (kwargs : list (string * value))
    (inst : instance) :
  NamedStruct_init cls kwargs = Ok inst ->
  binds_self kwargs = false
  /\ set_all {| inst_type := cls;
                _values := od_of_list name_eqb
                             (map (fun f => (_name f, VNone))
                                  (significant_fields cls));
                inst_dict := [] |} kwargs = Ok inst.
Proof.
  unfold NamedStruct_init. destruct (binds_self kwargs); [discriminate|].
  auto.
Qed.

Lemma NamedStruct_init_body (cls : struct_type) (kwargs : list (string * value)) :
  binds_self kwargs = false ->
  NamedStruct_init cls kwargs
  = set_all {| inst_type := cls;
               _values := od_of_list name_eqb
                            (map (fun f => (_name f, VNone))
                                 (significant_fields cls));
               inst_dict := [] |} kwargs.
Proof. unfold NamedStruct_init. intros ->. reflexivity. Qed.

Lemma descr_set_keeps (f : Field) (x i : instance) (v : value) :
  descr_set f x v = Ok i ->
  inst_type i = inst_type x /\ inst_dict i = inst_dict x.
Proof.
  unfold descr_set, StringField_set, Field_set.
  destruct (f_class f); simpl; try (intros E; inversion E; auto).
  apply bind_Ok in E. destruct E as (? & _ & E). inversion E. auto.
Qed.

(** The attributes a run of assignments leaves beside the fields: the
    names that are no field of the class, each with the value last
    given. *)
Lemma set_all_unknown_dict (cls : struct_type) (kwargs : list (string * value)) :
  forall self inst,
    inst_type self = cls ->
    set_all self kwargs = Ok inst ->
    inst_dict inst
    = fold_left (fun d kv => od_set String.eqb (fst kv) (snd kv) d)
        (filter (fun kv => negb (is_field cls (fst kv))) kwargs)
        (inst_dict self).
Proof.
  induction kwargs as [|[n v] kwargs IH]; intros self inst Ht H; simpl in H.
  - inversion H. reflexivity.
  - apply bind_Ok in H. destruct H as (self' & Hs & H).
    unfold setattr in Hs. destruct (reserved n); [discriminate|].
    simpl. unfold is_field at 1. rewrite Ht in Hs.
    destruct (od_get String.eqb n (_fields cls)) as [f|]; simpl.
    + destruct (descr_set_keeps _ _ _ _ Hs) as [Ht' Hd].
      rewrite (IH self' inst); [rewrite Hd; reflexivity| congruence |assumption].
    + inversion Hs; subst self'.
      pose proof (fun Ht0 => IH _ inst Ht0 H) as P. apply P. reflexivity.
Qed.

(** C7, as the code has it.  A keyword named [self] is refused with
    [TypeError]: it clashes with the parameter of [__init__].  Any other
    provided name that matches no field of the structure type is
    accepted: construction returns or raises exactly as it does without
    such names and leaves the same values, and when it returns, the
    names that match no field are the plain attributes of the instance,
    each with the value given. *)
Theorem unknown_names_accepted (cls : struct_type) (kwargs : list (string * value)) :
  (forall n, In n (map fst kwargs) -> reserved n = false) ->
  (In "self" (map fst kwargs) -> NamedStruct_init cls kwargs = Raise TypeError)
  /\ (~ In "self" (map fst kwargs) ->
      same_outcome (NamedStruct_init cls kwargs)
                   (NamedStruct_init cls
                      (filter (fun kv => is_field cls (fst kv)) kwargs))
      /\ forall inst,
           NamedStruct_init cls kwargs = Ok inst ->
           inst_dict inst
           = od_of_list String.eqb
               (filter (fun kv => negb (is_field cls (fst kv))) kwargs)).
Proof.
  intros Hres. split.
  - intros Hin. apply binds_self_spec in Hin.
    unfold NamedStruct_init. rewrite Hin. reflexivity.
  - intros Hns. apply binds_self_false in Hns. split.
    + rewrite (NamedStruct_init_body cls kwargs Hns).
      rewrite (NamedStruct_init_body cls _ (binds_self_filter _ kwargs Hns)).
      apply set_all_skips_unknown; auto.
    + intros inst Hinit. apply NamedStruct_init_Ok in Hinit.
      destruct Hinit as [_ Hinit].
      pose proof (fun Ht => set_all_unknown_dict cls kwargs _ inst Ht Hinit) as P.
      apply P. reflexivity.
Qed.

Lemma unknown_names_accepted_witness :
  same_outcome
    (NamedStruct_init Foo_cls [("a", VInt 1); ("zz", VInt 3)])
    (NamedStruct_init Foo_cls
       (filter (fun kv => is_field Foo_cls (fst kv))
               [("a", VInt 1); ("zz", VInt 3)]))
  /\ inst_dict (returned no_instance
                  (NamedStruct_init Foo_cls [("a", VInt 1); ("zz", VInt 3)]))
     = [("zz", VInt 3)].
Proof.
  destruct (unknown_names_accepted Foo_cls [("a", VInt 1); ("zz", VInt 3)])
    as [_ H].
  - simpl. intros n [<-|[<-|[]]]; reflexivity.
  - destruct H as [H1 H2].
    + simpl. intros [E|[E|[]]]; discriminate.
    + split; [exact H1|]. apply (H2 _ eq_refl).
Defined.

(** C7, as stated, fails: [Foo(a=1, zz=3)] returns an instance, with
    [zz], which names no field of [Foo], kept as a plain attribute. *)
Lemma unknown_name_counterexample :
  is_field Foo_cls "zz" = false
  /\ (i <- NamedStruct_init Foo_cls [("a", VInt 1); ("zz", VInt 3)] ;;
      Ok (_values i, inst_dict i))
     = Ok ([(Some "a", VInt 1); (Some "b", VNone); (Some "s", VNone)],
           [("zz", VInt 3)]).
Proof. vm_compute. split; reflexivity. Qed.

(** ** Declaration order (C3) *)

Lemma construct_birthday (c : ctor) (n : counter) :
  _field_birthday (fst (construct c n)) = n /\ snd (construct c n) = S n.
Proof. destruct c; simpl; split; reflexivity. Qed.

Lemma construct_fmt (c : ctor) (n m : counter) :
  _fmt (fst (construct c n)) = _fmt (fst (construct c m)).
Proof. destruct c; reflexivity. Qed.

Lemma declare_cons (name : string) (c : ctor) (rest : list (string * ctor))
    (n : counter) :
  fst (declare ((name, c) :: rest) n)
  = (name, fst (construct c n)) :: fst (declare rest (S n)).
Proof.
  simpl. pose proof (construct_birthday c n) as [_ Hs].
  destruct (construct c n) as [f n1]. simpl in Hs. subst.
  destruct (declare rest (S n)). reflexivity.
Qed.

Lemma declare_names (body : list (string * ctor)) (n : counter) :
  map fst (fst (declare body n)) = map fst body.
Proof.
  revert n. induction body as [|[name c] body IH]; intros n; [reflexivity|].
  rewrite declare_cons. simpl. f_equal. apply IH.
Qed.

Lemma declare_fmts (body : list (string * ctor)) (n : counter) :
  map (fun kf => _fmt (snd kf)) (fst (declare body n)) = map declared_fmt body.
Proof.
  revert n. induction body as [|[name c] body IH]; intros n; [reflexivity|].
  rewrite declare_cons. simpl. f_equal; [apply construct_fmt|apply IH].
Qed.

(** Birthdays follow the order of the lines. *)
Lemma declare_birthdays (body : list (string * ctor)) (n : counter) :
  forall x, In x (fst (declare body n)) -> (n <= _field_birthday (snd x))%nat.
Proof.
  revert n. induction body as [|[name c] body IH]; intros n x; [intros []|].
  rewrite declare_cons. intros [<-|Hin]; simpl.
  - rewrite (proj1 (construct_birthday c n)). lia.
  - apply IH in Hin. lia.
Qed.

Lemma declare_sorted (body : list (string * ctor)) (n : counter) :
  StronglySorted birthday_lt (fst (declare body n)).
Proof.
  revert n. induction body as [|[name c] body IH]; intros n.
  - constructor.
  - rewrite declare_cons. constructor; [apply IH|].
    apply Forall_forall. intros x Hin. unfold birthday_lt. simpl.
    rewrite (proj1 (construct_birthday c n)).
    apply declare_birthdays in Hin. lia.
Qed.

Lemma insert_by_birthday_perm (x : string * Field) (l : list (string * Field)) :
  Permutation (insert_by_birthday x l) (x :: l).
Proof.
  induction l as [|y l IH]; simpl; [reflexivity|].
  destruct (_field_birthday (snd x) <=? _field_birthday (snd y))%nat;
    [reflexivity|].
  rewrite IH. apply perm_swap.
Qed.

Lemma sorted_by_birthday_perm (l : list (string * Field)) :
  Permutation (sorted_by_birthday l) l.
Proof.
  induction l as [|x l IH]; simpl; [reflexivity|].
  rewrite insert_by_birthday_perm. constructor. assumption.
Qed.

Lemma insert_by_birthday_sorted (x : string * Field) (l : list (string * Field)) :
  StronglySorted birthday_le l ->
  StronglySorted birthday_le (insert_by_birthday x l).
Proof.
  induction 1 as [|y l Hs IH Hall]; simpl.
  - repeat constructor.
  - destruct (_field_birthday (snd x) <=? _field_birthday (snd y))%nat eqn:E.
    + apply Nat.leb_le in E. constructor; [constructor; assumption|].
      constructor; [exact E|].
      rewrite Forall_forall in *. intros z Hz. specialize (Hall z Hz).
      unfold birthday_le in *. lia.
    + apply Nat.leb_gt in E. constructor; [assumption|].
      rewrite Forall_forall in *. intros z Hz.
      apply (Permutation_in _ (insert_by_birthday_perm x l)) in Hz.
      destruct Hz as [<-|Hz]; [unfold birthday_le; lia|auto].
Qed.

Lemma sorted_by_birthday_sorted (l : list (string * Field)) :
  StronglySorted birthday_le (sorted_by_birthday l).
Proof.
  induction l as [|x l IH]; simpl; [constructor|].
  apply insert_by_birthday_sorted. assumption.
Qed.

(** A list in increasing birthday order is the only sorted arrangement of
    its entries. *)
Lemma sorted_unique (s l : list (string * Field)) :
  StronglySorted birthday_le s ->
  StronglySorted birthday_lt l ->
  Permutation s l -> s = l.
Proof.
  intros Hs Hl. revert s Hs. induction Hl as [|x l Hl IH Hx]; intros s Hs Hp.
  - apply Permutation_nil. symmetry. assumption.
  - destruct s as [|y s]; [apply Permutation_nil in Hp; discriminate|].
    inversion Hs as [|? ? Hs' Hy]; subst.
    assert (E : y = x).
    { assert (Hyl : In y (x :: l))
        by (apply (Permutation_in _ Hp); left; reflexivity).
      assert (Hxs : In x (y :: s))
        by (apply (Permutation_in _ (Permutation_sym Hp)); left; reflexivity).
      destruct Hyl as [E|Hyl]; [auto|].
      destruct Hxs as [E|Hxs]; [auto|].
      rewrite Forall_forall in Hx, Hy.
      specialize (Hx _ Hyl). specialize (Hy _ Hxs).
      unfold birthday_lt, birthday_le in *. lia. }
    subst y. f_equal. apply IH; [assumption|].
    apply Permutation_cons_inv in Hp. assumption.
Qed.

Lemma field_items_app (a b : list (string * class_attr)) :
  field_items (a ++ b) = field_items a ++ field_items b.
Proof.
  induction a as [|[n [f|]] a IH]; simpl; [reflexivity| |assumption].
  f_equal. assumption.
Qed.

Lemma field_items_perm (a b : list (string * class_attr)) :
  Permutation a b -> Permutation (field_items a) (field_items b).
Proof.
  induction 1 as [|[n [f|]] a b _ IH|[n [f|]] [m [g|]] a|a b c _ IH1 _ IH2];
    simpl; try reflexivity; try assumption.
  - constructor. assumption.
  - apply perm_swap.
  - etransitivity; eassumption.
Qed.

Lemma field_items_attrs_of (body : list (string * ctor)) (n : counter) :
  field_items (attrs_of body n) = fst (declare body n).
Proof.
  unfold attrs_of. induction (fst (declare body n)) as [|[k f] l IH];
    simpl; [reflexivity|]. f_equal. assumption.
Qed.

Lemma field_items_others (names : list string) :
  field_items (map (fun n => (n, AOther)) names) = [].
Proof. induction names; simpl; auto. Qed.

Lemma assign_name_other (b : nat) (n owner : string) (l : list (string * Field)) :
  (forall x, In x l -> _field_birthday (snd x) <> b) ->
  assign_name b n owner l = l.
Proof.
  induction l as [|x l IH]; intros H; simpl; [reflexivity|].
  rewrite (proj2 (Nat.eqb_neq _ _) (H x (or_introl eq_refl))).
  f_equal. apply IH. intros y Hy. apply H. right. assumption.
Qed.

Lemma sorted_app_inv (pre suf : list (string * Field)) :
  StronglySorted birthday_lt (pre ++ suf) ->
  StronglySorted birthday_lt suf
  /\ forall x y, In x pre -> In y suf -> birthday_lt x y.
Proof.
  induction pre as [|z pre IH]; simpl; intros H.
  - split; [assumption|]. intros x y [].
  - inversion H as [|? ? Hs Hall]; subst. destruct (IH Hs) as [H1 H2].
    split; [assumption|]. intros x y [<-|Hx] Hy; [|auto].
    rewrite Forall_forall in Hall. apply Hall. apply in_or_app. auto.
Qed.

(** With one entry per field object, binding gives every field the name
    of its own entry. *)
Lemma bind_names_sorted (owner : string) (table : list (string * Field)) :
  StronglySorted birthday_lt table ->
  bind_names owner table = map (bound owner) table.
Proof.
  intros Hs. unfold bind_names.
  assert (G : forall suf pre,
            StronglySorted birthday_lt (pre ++ suf) ->
            fold_left (fun acc kf =>
                         assign_name (_field_birthday (snd kf)) (fst kf) owner acc)
                      suf (map (bound owner) pre ++ suf)
            = map (bound owner) (pre ++ suf)).
  { induction suf as [|kf suf IH]; intros pre Hsorted; simpl.
    - rewrite !app_nil_r. reflexivity.
    - unfold assign_name at 2. rewrite map_app. simpl.
      rewrite Nat.eqb_refl.
      fold (assign_name (_field_birthday (snd kf)) (fst kf) owner
              (map (bound owner) pre)).
      fold (assign_name (_field_birthday (snd kf)) (fst kf) owner suf).
      rewrite !assign_name_other.
      + replace (map (bound owner) pre ++ (fst kf, set_binding (snd kf) (fst kf) owner) :: suf)
          with (map (bound owner) (pre ++ [kf]) ++ suf)
          by (rewrite map_app, <- app_assoc; reflexivity).
        rewrite IH; rewrite <- app_assoc; [reflexivity|assumption].
      + intros x Hx.
        apply sorted_app_inv in Hsorted. destruct Hsorted as [Hsuf _].
        inversion Hsuf as [|? ? _ Hall]; subst.
        rewrite Forall_forall in Hall. specialize (Hall x Hx).
        unfold birthday_lt in Hall. lia.
      + intros x Hx. apply in_map_iff in Hx. destruct Hx as (y & <- & Hy).
        simpl.
        apply sorted_app_inv in Hsorted. destruct Hsorted as [_ Hlt].
        specialize (Hlt y kf Hy (or_introl eq_refl)).
        unfold birthday_lt in Hlt. lia. }
  apply (G table []). assumption.
Qed.

Lemma layout_bound (owner : string) (table : list (string * Field)) :
  layout (map (bound owner) table)
  = Str.join " " (map (fun kf => _fmt (snd kf)) table).
Proof.
  unfold layout, od_values. rewrite !map_map. reflexivity.
Qed.

Lemma significant_bound (owner : string) (body : list (string * ctor))
    (n : counter) :
  map _name (filter is_significant
               (od_values (map (bound owner) (fst (declare body n)))))
  = map (fun nc => Some (fst nc)) (filter declared_significant body).
Proof.
  revert n. induction body as [|[name c] body IH]; intros n; [reflexivity|].
  rewrite declare_cons. simpl.
  unfold declared_significant at 1. unfold is_significant at 1. simpl.
  rewrite (construct_fmt c n 0%nat). fold (is_significant (fst (construct c 0%nat))).
  destruct (is_significant (fst (construct c 0%nat))); simpl;
    [f_equal|]; apply IH.
Qed.

(** C3: whatever order the attribute mapping is iterated in, the class is
    built as from the lines of its body read top to bottom: the field
    table lists the declared names in declaration order, the layout joins
    their formats in that order, and the significant fields follow it. *)
Theorem declaration_order_recovered (pf : Struct.platform) (name : string)
    (body : list (string * ctor)) (n0 : counter) (others : list string)
    (attrs : list (string * class_attr)) :
  NoDup (map fst body) ->
  Permutation attrs (attrs_of body n0 ++ map (fun n => (n, AOther)) others) ->
  body_ok attrs = true ->
  HasFields_new pf name attrs
  = (st <- Struct.new pf (Str.join " " (map declared_fmt body)) ;;
     Ok {| cls_name := name;
           _fields := map (bound name) (fst (declare body n0));
           _struct := st |})
  /\ od_keys (map (bound name) (fst (declare body n0))) = map fst body
  /\ layout (map (bound name) (fst (declare body n0)))
     = Str.join " " (map declared_fmt body)
  /\ map _name (filter is_significant
                  (od_values (map (bound name) (fst (declare body n0)))))
     = map (fun nc => Some (fst nc)) (filter declared_significant body).
Proof.
  intros Hnd Hperm Hok.
  assert (Hlay : layout (map (bound name) (fst (declare body n0)))
                 = Str.join " " (map declared_fmt body))
    by (rewrite layout_bound, declare_fmts; reflexivity).
  repeat split.
  - unfold HasFields_new. rewrite Hok. simpl.
    assert (Hsort : sorted_by_birthday (field_items attrs)
                    = fst (declare body n0)).
    { apply sorted_unique.
      - apply sorted_by_birthday_sorted.
      - apply declare_sorted.
      - rewrite sorted_by_birthday_perm.
        rewrite (field_items_perm _ _ Hperm), field_items_app.
        rewrite field_items_attrs_of, field_items_others, app_nil_r.
        reflexivity. }
    rewrite Hsort.
    rewrite (od_of_list_nodup String.eqb String.eqb_eq).
    + rewrite (bind_names_sorted name _ (declare_sorted body n0)).
      rewrite Hlay. reflexivity.
    + unfold od_keys. rewrite declare_names. assumption.
  - unfold od_keys. rewrite map_map. simpl.
    apply (declare_names body n0).
  - exact Hlay.
  - apply significant_bound.
Qed.

Lemma declaration_order_recovered_witness :
  HasFields_new Struct.linux_x86_64 "Foo" (rev (attrs_of Foo_body 3%nat) ++ [("__module__", AOther)])
  = (st <- Struct.new Struct.linux_x86_64 (Str.join " " (map declared_fmt Foo_body)) ;;
     Ok {| cls_name := "Foo";
           _fields := map (bound "Foo") (fst (declare Foo_body 3%nat));
           _struct := st |})
  /\ od_keys (map (bound "Foo") (fst (declare Foo_body 3%nat))) = ["a"; "dummy"; "b"; "s"]
  /\ layout (map (bound "Foo") (fst (declare Foo_body 3%nat))) = "L 12x B 8s"
  /\ map _name (filter is_significant
                  (od_values (map (bound "Foo") (fst (declare Foo_body 3%nat)))))
     = [Some "a"; Some "b"; Some "s"].
Proof.
  apply (declaration_order_recovered Struct.linux_x86_64 "Foo" Foo_body 3%nat
           ["__module__"]).
  - repeat constructor; simpl; intuition discriminate.
  - apply Permutation_app_tail. symmetry. apply Permutation_rev.
  - reflexivity.
Defined.

(** ** The struct library: sizes and lengths *)

Lemma itemsize_pos (pf : Struct.platform) (m : Struct.mode) (c : Struct.code) :
  0 < Struct.itemsize pf m c.
Proof. destruct c, m; simpl; lia. Qed.

Lemma gap_nonneg (pf : Struct.platform) (m : Struct.mode) (c : Struct.code)
    (size : Z) :
  0 <= Struct.gap pf m c size.
Proof.
  unfold Struct.gap.
  destruct (0 <? Struct.alignment pf m c) eqn:Ea; simpl; [|lia].
  destruct (0 <? size); [|lia].
  apply Z.ltb_lt in Ea.
  pose proof (Z.mod_pos_bound (size - 1) _ Ea). lia.
Qed.

Lemma digit_val_range (c : ascii) :
  Str.is_digit c = true -> 0 <= Str.digit_val c <= 9.
Proof.
  unfold Str.is_digit, Str.digit_val. rewrite andb_true_iff.
  rewrite !N.leb_le. lia.
Qed.

Lemma parse_items_nonneg (pf : Struct.platform) (m : Struct.mode) (s : string) :
  forall num items,
    match num with Some n => 0 <= n | None => True end ->
    Struct.parse_items pf m s num = Ok items ->
    Forall (fun it => 0 <= fst it) items.
Proof.
  induction s as [|c s IH]; intros num items Hn H; simpl in H.
  - destruct num; inversion H. constructor.
  - assert (Hitem : forall n, 0 <= n ->
              match Struct.code_of_char c with
              | Some k =>
                  if Struct.available m k
                  then rest <- Struct.parse_items pf m s None ;; Ok ((n, k) :: rest)
                  else Raise StructError
              | None => Raise StructError
              end = Ok items -> Forall (fun it => 0 <= fst it) items).
    { intros n Hn0 E. destruct (Struct.code_of_char c); [|discriminate].
      destruct (Struct.available m c0); [|discriminate].
      apply bind_Ok in E. destruct E as (rest & Er & E). inversion E; subst.
      constructor; [assumption|]. apply (IH None); [exact I|assumption]. }
    destruct num as [n|].
    + destruct (Str.is_digit c) eqn:Ed.
      * destruct ((Struct.ssize_max pf / 10 <=? n)
                  && ((Struct.ssize_max pf / 10 <? n)
                      || (Struct.ssize_max pf mod 10 <? Str.digit_val c)));
          [discriminate|].
        apply (IH (Some (n * 10 + Str.digit_val c))); [|exact H].
        simpl in *. pose proof (digit_val_range c Ed). lia.
      * apply (Hitem n Hn H).
    + destruct (Struct.c_isspace c).
      * apply (IH None); [exact I|assumption].
      * destruct (Str.is_digit c) eqn:Ed.
        -- apply (IH (Some (Str.digit_val c))); [|exact H].
           simpl. pose proof (digit_val_range c Ed). lia.
        -- apply (Hitem 1); [lia|assumption].
Qed.

Lemma calcsize_end_offset (pf : Struct.platform) (m : Struct.mode)
    (items : list (Z * Struct.code)) :
  forall off total,
    Struct.calcsize pf m items off = Ok total ->
    total = end_offset pf m items off.
Proof.
  induction items as [|[num c] items IH]; intros off total H; simpl in *.
  - inversion H. reflexivity.
  - destruct (Struct.ssize_max pf - off <? Struct.gap pf m c off); [discriminate|].
    destruct ((Struct.ssize_max pf - (off + Struct.gap pf m c off))
              / Struct.itemsize pf m c <? num); [discriminate|].
    apply IH. assumption.
Qed.

Lemma zeros_length (n : Z) : 0 <= n -> Z.of_nat (List.length (zeros n)) = n.
Proof. intros H. unfold zeros. rewrite repeat_length. lia. Qed.

Lemma le_bytes_length (n : nat) (z : Z) : List.length (le_bytes n z) = n.
Proof. revert z. induction n; intros z; simpl; [reflexivity|]. f_equal. apply IHn. Qed.

Lemma int_bytes_length (pf : Struct.platform) (m : Struct.mode) (size z : Z) :
  List.length (Struct.int_bytes pf m size z) = Z.to_nat size.
Proof.
  unfold Struct.int_bytes. destruct (Struct.big_endian pf m);
    [rewrite length_rev|]; apply le_bytes_length.
Qed.

Lemma pack_scalar_length (pf : Struct.platform) (m : Struct.mode)
    (c : Struct.code) (v : value) (bs : list byte) :
  Struct.pack_scalar pf m c v = Ok bs ->
  List.length bs = Z.to_nat (Struct.itemsize pf m c).
Proof.
  unfold Struct.pack_scalar. intros H.
  assert (Hint : forall (ok : Z -> bool) ,
            (z <- Struct.as_integer v ;;
             if ok z then Ok (Struct.int_bytes pf m (Struct.itemsize pf m c) z)
             else Raise StructError) = Ok bs ->
            List.length bs = Z.to_nat (Struct.itemsize pf m c)).
  { intros ok E. apply bind_Ok in E. destruct E as (z & _ & E).
    destruct (ok z); inversion E. apply int_bytes_length. }
  destruct c; simpl in H; try discriminate;
    try (apply (Hint _ H));
    try (destruct v as [| | | |[|b [|]]]; inversion H; reflexivity);
    try (inversion H; reflexivity);
    try (destruct v; discriminate).
Qed.

Lemma pack_repeat_length (pf : Struct.platform) (m : Struct.mode)
    (c : Struct.code) (n : nat) :
  forall vals bs rest,
    Struct.pack_repeat pf m c n vals = Ok (bs, rest) ->
    Z.of_nat (List.length bs) = Z.of_nat n * Struct.itemsize pf m c
    /\ rest = skipn n vals.
Proof.
  induction n as [|n IH]; intros vals bs rest H; simpl in H.
  - inversion H. simpl. split; [lia|reflexivity].
  - destruct vals as [|v vs]; [discriminate|].
    apply bind_Ok in H. destruct H as (b1 & E1 & H).
    apply bind_Ok in H. destruct H as ([r rest'] & E2 & H). inversion H; subst.
    destruct (IH _ _ _ E2) as [Hl Hr]. split; [|assumption].
    rewrite length_app, (pack_scalar_length _ _ _ _ _ E1).
    pose proof (itemsize_pos pf m c). lia.
Qed.

Lemma fit_length (n : Z) (bs : list byte) :
  0 <= n -> Z.of_nat (List.length (Struct.fit n bs)) = n.
Proof.
  intros H. unfold Struct.fit. rewrite length_app.
  pose proof (firstn_le_length (Z.to_nat n) bs).
  assert (List.length (firstn (Z.to_nat n) bs) <= Z.to_nat n)%nat
    by (rewrite length_firstn; lia).
  rewrite Nat2Z.inj_add, zeros_length; lia.
Qed.

Lemma pack_item_length (pf : Struct.platform) (m : Struct.mode)
    (it : Z * Struct.code) (vals : list value) (bs : list byte)
    (rest : list value) :
  0 <= fst it ->
  Struct.pack_item pf m it vals = Ok (bs, rest) ->
  Z.of_nat (List.length bs) = fst it * Struct.itemsize pf m (snd it).
Proof.
  destruct it as [num c]. simpl. intros Hn H.
  assert (Hrep : Struct.pack_repeat pf m c (Z.to_nat num) vals = Ok (bs, rest) ->
                 Z.of_nat (List.length bs) = num * Struct.itemsize pf m c).
  { intros E. apply pack_repeat_length in E. destruct E as [E _].
    rewrite E. rewrite Z2Nat.id by assumption. reflexivity. }
  destruct c; simpl in H; try (apply (Hrep H)).
  - inversion H; subst. rewrite zeros_length; simpl; lia.
  - destruct vals as [|[| | | |b] vs]; inversion H; subst.
    rewrite fit_length; simpl; lia.
  - destruct vals as [|[| | | |b] vs]; try discriminate.
    destruct (num =? 0) eqn:E0; [discriminate|]. apply Z.eqb_neq in E0.
    inversion H; subst. simpl List.length. rewrite length_app.
    assert (List.length (firstn (Z.to_nat (num - 1)) b) <= Z.to_nat (num - 1))%nat
      by (rewrite length_firstn; lia).
    rewrite Nat2Z.inj_succ, Nat2Z.inj_add, zeros_length; simpl; lia.
Qed.

Lemma pack_items_length (pf : Struct.platform) (m : Struct.mode)
    (items : list (Z * Struct.code)) :
  Forall (fun it => 0 <= fst it) items ->
  forall vals off bs,
    Struct.pack_items pf m items vals off = Ok bs ->
    Z.of_nat (List.length bs) = end_offset pf m items off - off.
Proof.
  induction 1 as [|it items Hn _ IH]; intros vals off bs H; simpl in H.
  - inversion H. simpl. lia.
  - apply bind_Ok in H. destruct H as ([b1 vals'] & E1 & H).
    apply bind_Ok in H. destruct H as (tail & E2 & H). inversion H; subst.
    rewrite !length_app, !Nat2Z.inj_add.
    rewrite (pack_item_length _ _ _ _ _ _ Hn E1), (IH _ _ _ E2).
    rewrite zeros_length by apply gap_nonneg. simpl. lia.
Qed.

(** ** The struct library: the format of a class *)

Lemma bind_ret {A} (r : result A) : (x <- r ;; Ok x) = r.
Proof. destruct r; reflexivity. Qed.

Lemma bind_assoc {A B C} (r : result A) (f : A -> result B) (g : B -> result C) :
  bind (bind r f) g = bind r (fun x => bind (f x) g).
Proof. destruct r; reflexivity. Qed.

(** Formats separated by a space compile to the items of the first
    followed by the items of the rest. *)
Lemma parse_items_app (pf : Struct.platform) (m : Struct.mode) (s1 s2 : string) :
  forall num l1,
    Struct.parse_items pf m s1 num = Ok l1 ->
    Struct.parse_items pf m (s1 ++ String " " s2) num
    = (l2 <- Struct.parse_items pf m s2 None ;; Ok (l1 ++ l2)).
Proof.
  induction s1 as [|c s1 IH]; intros num l1 H; simpl in H |- *.
  - destruct num; inversion H. simpl. symmetry. apply bind_ret.
  - assert (Hitem : forall n,
              match Struct.code_of_char c with
              | Some k =>
                  if Struct.available m k
                  then rest <- Struct.parse_items pf m s1 None ;; Ok ((n, k) :: rest)
                  else Raise StructError
              | None => Raise StructError
              end = Ok l1 ->
              match Struct.code_of_char c with
              | Some k =>
                  if Struct.available m k
                  then rest <- Struct.parse_items pf m (s1 ++ String " " s2) None ;;
                       Ok ((n, k) :: rest)
                  else Raise StructError
              | None => Raise StructError
              end = (l2 <- Struct.parse_items pf m s2 None ;; Ok (l1 ++ l2))).
    { intros n E. destruct (Struct.code_of_char c); [|discriminate].
      destruct (Struct.available m c0); [|discriminate].
      apply bind_Ok in E. destruct E as (rest & Er & E). inversion E; subst.
      rewrite (IH _ _ Er), bind_assoc. reflexivity. }
    destruct num as [n|].
    + destruct (Str.is_digit c).
      * destruct ((Struct.ssize_max pf / 10 <=? n)
                  && ((Struct.ssize_max pf / 10 <? n)
                      || (Struct.ssize_max pf mod 10 <? Str.digit_val c)));
          [discriminate|].
        apply IH. assumption.
      * apply Hitem. assumption.
    + destruct (Struct.c_isspace c); [apply IH; assumption|].
      destruct (Str.is_digit c); [apply IH; assumption|].
      apply Hitem. assumption.
Qed.

Lemma parse_items_join (pf : Struct.platform) (m : Struct.mode)
    (fmts : list string) (its : list (Z * Struct.code)) :
  Forall2 (fun s it => Struct.parse_items pf m s None = Ok [it]) fmts its ->
  Struct.parse_items pf m (Str.join " " fmts) None = Ok its.
Proof.
  induction 1 as [|s it fmts its Hs HF IH]; [reflexivity|].
  destruct fmts as [|s' fmts].
  - inversion HF; subst. exact Hs.
  - change (Str.join " " (s :: s' :: fmts))
      with (s ++ String " " (Str.join " " (s' :: fmts)))%string.
    rewrite (parse_items_app _ _ _ _ _ _ Hs), IH. reflexivity.
Qed.

(** A format that compiles in native mode does not start with a
    byte-order character. *)
Lemma split_prefix_native (pf : Struct.platform) (c : ascii) (s t : string)
    (l : list (Z * Struct.code)) :
  Struct.parse_items pf Struct.Native (String c s) None = Ok l ->
  Struct.split_prefix pf (String c t) = (Struct.Native, String c t).
Proof.
  intros H.
  destruct c as [[] [] [] [] [] [] [] []]; try reflexivity;
    simpl in H; discriminate.
Qed.

Lemma string_app_cons (c : ascii) (s t : string) :
  (String c s ++ t)%string = String c (s ++ t).
Proof. reflexivity. Qed.

Lemma split_prefix_join (pf : Struct.platform) (fmts : list string)
    (its : list (Z * Struct.code)) :
  Forall2 (fun s it => Struct.parse_items pf Struct.Native s None = Ok [it])
          fmts its ->
  Struct.split_prefix pf (Str.join " " fmts)
  = (Struct.Native, Str.join " " fmts).
Proof.
  intros HF. destruct HF as [|s it fmts its Hs HF]; [reflexivity|].
  destruct s as [|c s]; [discriminate|].
  destruct fmts as [|s' fmts].
  - apply (split_prefix_native pf c s s _ Hs).
  - change (Str.join " " (String c s :: s' :: fmts))
      with (String c (s ++ String " " (Str.join " " (s' :: fmts)))).
    apply (split_prefix_native pf c s _ _ Hs).
Qed.

(** What [HasFields] compiles when every field's format is one item. *)
Lemma compiled_items (pf : Struct.platform) (cls : struct_type)
    (its : list (Z * Struct.code)) :
  compiled pf cls ->
  Forall2 (fun f it => field_layout pf f = Ok [it]) (od_values (_fields cls)) its ->
  Struct.s_platform (_struct cls) = pf
  /\ Struct.s_mode (_struct cls) = Struct.Native
  /\ Struct.s_items (_struct cls) = its
  /\ Struct.s_size (_struct cls) = end_offset pf Struct.Native its 0
  /\ Struct.s_len (_struct cls) = Struct.count_values its
  /\ Struct.calcsize pf Struct.Native its 0 = Ok (Struct.s_size (_struct cls)).
Proof.
  unfold compiled, Struct.new, layout. intros Hc HF.
  assert (HF' : Forall2 (fun s it => Struct.parse_items pf Struct.Native s None = Ok [it])
                        (map _fmt (od_values (_fields cls))) its).
  { clear Hc. induction HF; simpl; constructor; assumption. }
  destruct (negb (Struct.forallb_string Struct.is_ascii _)); [discriminate|].
  destruct (negb (Struct.forallb_string _ _)); [discriminate|].
  rewrite (split_prefix_join pf _ _ HF') in Hc.
  rewrite (parse_items_join _ _ _ _ HF') in Hc. simpl in Hc.
  apply bind_Ok in Hc. destruct Hc as (size & Es & Hc).
  injection Hc as Hst. rewrite <- Hst. simpl. repeat split; try assumption.
  apply calcsize_end_offset. assumption.
Qed.

(** ** Total width of a layout (C10) *)

Lemma ssize_max_nonneg (pf : Struct.platform) : 0 <= Struct.ssize_max pf.
Proof.
  unfold Struct.ssize_max.
  assert (0 < 2 ^ (8 * Z.pos (Struct.pointer_bytes pf) - 1))
    by (apply Z.pow_pos_nonneg; lia).
  lia.
Qed.

Lemma layout_items_nonneg (pf : Struct.platform) (fs : list Field)
    (its : list (Z * Struct.code)) :
  Forall2 (fun f it => field_layout pf f = Ok [it]) fs its ->
  Forall (fun it => 0 <= fst it) its.
Proof.
  induction 1 as [|f it fs its Hf _ IH]; constructor; [|assumption].
  apply (parse_items_nonneg _ _ _ None) in Hf; [|exact I].
  inversion Hf. assumption.
Qed.

Lemma end_offset_ge (pf : Struct.platform) (its : list (Z * Struct.code)) :
  Forall (fun it => 0 <= fst it) its ->
  forall off, off + sum_Z (map (item_width pf) its)
              <= end_offset pf Struct.Native its off.
Proof.
  induction 1 as [|it its Hn _ IH]; intros off; simpl; [lia|].
  specialize (IH (off + Struct.gap pf Struct.Native (snd it) off
                  + fst it * Struct.itemsize pf Struct.Native (snd it))).
  pose proof (gap_nonneg pf Struct.Native (snd it) off).
  unfold item_width in *. lia.
Qed.

Lemma gap_unaligned (pf : Struct.platform) (c : Struct.code) (off : Z) :
  Struct.alignment pf Struct.Native c <= 1 ->
  Struct.gap pf Struct.Native c off = 0.
Proof.
  intros Ha. unfold Struct.gap. cbv zeta.
  destruct (0 <? Struct.alignment pf Struct.Native c) eqn:E;
    [|reflexivity].
  apply Z.ltb_lt in E.
  assert (Ea : Struct.alignment pf Struct.Native c = 1) by lia.
  rewrite Ea, Z.mod_1_r. destruct (0 <? off); reflexivity.
Qed.

Lemma end_offset_unaligned (pf : Struct.platform) (its : list (Z * Struct.code)) :
  Forall (fun it => Struct.alignment pf Struct.Native (snd it) <= 1) its ->
  forall off, end_offset pf Struct.Native its off
              = off + sum_Z (map (item_width pf) its).
Proof.
  induction 1 as [|it its Ha _ IH]; intros off; simpl; [lia|].
  rewrite IH, (gap_unaligned _ _ _ Ha). unfold item_width. lia.
Qed.

(** An item of a layout that is not too long is not too long alone. *)
Lemma calcsize_single (pf : Struct.platform) (its : list (Z * Struct.code)) :
  forall off total,
    0 <= off ->
    Forall (fun it => 0 <= fst it) its ->
    Struct.calcsize pf Struct.Native its off = Ok total ->
    Forall (fun it => Struct.calcsize pf Struct.Native [it] 0
                      = Ok (item_width pf it)) its.
Proof.
  induction its as [|[num c] its IH]; intros off total Hoff Hn H;
    constructor; inversion Hn as [|? ? Hnum Hn']; subst; simpl in H, Hnum.
  - simpl.
    pose proof (ssize_max_nonneg pf) as Hmax.
    pose proof (itemsize_pos pf Struct.Native c) as Hsz.
    pose proof (gap_nonneg pf Struct.Native c off) as Hg.
    destruct (Struct.ssize_max pf - off <? Struct.gap pf Struct.Native c off)
      eqn:E1; [discriminate|].
    destruct ((Struct.ssize_max pf - (off + Struct.gap pf Struct.Native c off))
              / Struct.itemsize pf Struct.Native c <? num) eqn:E2; [discriminate|].
    apply Z.ltb_ge in E1, E2.
    assert (Hg0 : Struct.gap pf Struct.Native c 0 = 0).
    { unfold Struct.gap. cbv zeta. rewrite Z.ltb_irrefl, andb_false_r.
      reflexivity. }
    rewrite Hg0.
    assert (F1 : (Struct.ssize_max pf - 0 <? 0) = false)
      by (apply Z.ltb_ge; lia).
    assert (F2 : ((Struct.ssize_max pf - 0)
                  / Struct.itemsize pf Struct.Native c <? num) = false).
    { apply Z.ltb_ge. etransitivity; [exact E2|].
      apply Z.div_le_mono; lia. }
    rewrite F1. simpl. rewrite F2. reflexivity.
  - destruct (Struct.ssize_max pf - off <? Struct.gap pf Struct.Native c off);
      [discriminate|].
    destruct ((Struct.ssize_max pf - (off + Struct.gap pf Struct.Native c off))
              / Struct.itemsize pf Struct.Native c <? num); [discriminate|].
    eapply IH; [|exact Hn'|exact H].
    pose proof (gap_nonneg pf Struct.Native c off).
    pose proof (itemsize_pos pf Struct.Native c). nia.
Qed.

(** C10, as the code has it: when every field's format is one item, the
    total byte width of the compiled layout is the sum of the fields'
    widths plus the gaps native alignment inserts before the fields (the
    end offset of the layout); it is never less than the sum, equals it
    when no field asks for more than byte alignment, is the length of
    every packed buffer and the only buffer length [unpack] accepts. *)
Theorem layout_width (pf : Struct.platform) (cls : struct_type)
    (its : list (Z * Struct.code)) :
  compiled pf cls ->
  Forall2 (fun f it => field_layout pf f = Ok [it]) (od_values (_fields cls)) its ->
  Forall2 (fun f it => field_width pf f = Ok (item_width pf it))
          (od_values (_fields cls)) its
  /\ Struct.s_size (_struct cls) = end_offset pf Struct.Native its 0
  /\ sum_Z (map (item_width pf) its) <= Struct.s_size (_struct cls)
  /\ (Forall (fun it => Struct.alignment pf Struct.Native (snd it) <= 1) its ->
      Struct.s_size (_struct cls) = sum_Z (map (item_width pf) its))
  /\ (forall self bs, inst_type self = cls -> pack self = Ok bs ->
      Z.of_nat (List.length bs) = Struct.s_size (_struct cls))
  /\ (forall buf i, unpack cls buf = Ok i ->
      Z.of_nat (List.length buf) = Struct.s_size (_struct cls)).
Proof.
  intros Hc HF.
  destruct (compiled_items pf cls its Hc HF) as (Hpf & Hm & Hi & Hs & Hl & Hcs).
  pose proof (layout_items_nonneg pf _ _ HF) as Hnn.
  split; [|split; [|split; [|split; [|split]]]].
  - pose proof (calcsize_single pf its 0 _ (Z.le_refl 0) Hnn Hcs) as Hall.
    clear Hc Hi Hs Hl Hcs Hnn.
    induction HF as [|f it fs its' Hf HF IH]; constructor.
    + unfold field_width. rewrite Hf. simpl bind.
      inversion Hall. assumption.
    + apply IH. inversion Hall. assumption.
  - exact Hs.
  - rewrite Hs. pose proof (end_offset_ge pf its Hnn 0). lia.
  - intros Ha. rewrite Hs, (end_offset_unaligned pf its Ha). lia.
  - intros self bs Ht Hp. unfold pack, Struct.pack in Hp. rewrite Ht in Hp.
    destruct (Z.of_nat (List.length (_to_seq self)) =? Struct.s_len (_struct cls));
      [|discriminate].
    rewrite Hpf, Hm, Hi in Hp.
    rewrite (pack_items_length pf _ its Hnn _ _ _ Hp), Hs. lia.
  - intros buf i Hu. unfold unpack in Hu.
    apply bind_Ok in Hu. destruct Hu as (vals & Hu & _).
    unfold Struct.unpack in Hu.
    destruct (Z.of_nat (List.length buf) =? Struct.s_size (_struct cls)) eqn:E;
      [|discriminate].
    apply Z.eqb_eq. assumption.
Qed.

Lemma layout_width_witness :
  Forall2 (fun f it => field_width Struct.linux_x86_64 f
                       = Ok (item_width Struct.linux_x86_64 it))
          (od_values (_fields Foo_cls))
          [(1, Struct.CL); (12, Struct.Cx); (1, Struct.CB); (8, Struct.Cs)]
  /\ Struct.s_size (_struct Foo_cls)
     = end_offset Struct.linux_x86_64 Struct.Native
         [(1, Struct.CL); (12, Struct.Cx); (1, Struct.CB); (8, Struct.Cs)] 0
  /\ sum_Z (map (item_width Struct.linux_x86_64)
              [(1, Struct.CL); (12, Struct.Cx); (1, Struct.CB); (8, Struct.Cs)])
     <= Struct.s_size (_struct Foo_cls)
  /\ (Forall (fun it => Struct.alignment Struct.linux_x86_64 Struct.Native (snd it) <= 1)
             [(1, Struct.CL); (12, Struct.Cx); (1, Struct.CB); (8, Struct.Cs)] ->
      Struct.s_size (_struct Foo_cls)
      = sum_Z (map (item_width Struct.linux_x86_64)
                 [(1, Struct.CL); (12, Struct.Cx); (1, Struct.CB); (8, Struct.Cs)]))
  /\ (forall self bs, inst_type self = Foo_cls -> pack self = Ok bs ->
      Z.of_nat (List.length bs) = Struct.s_size (_struct Foo_cls))
  /\ (forall buf i, unpack Foo_cls buf = Ok i ->
      Z.of_nat (List.length buf) = Struct.s_size (_struct Foo_cls)).
Proof.
  apply (layout_width Struct.linux_x86_64 Foo_cls
           [(1, Struct.CL); (12, Struct.Cx); (1, Struct.CB); (8, Struct.Cs)]).
  - reflexivity.
  - repeat constructor.
Defined.

(** C10, as stated, fails: [Pair] declares a one-byte field and a two-byte
    field, and its layout is four bytes wide; the packed buffer carries a
    byte that belongs to neither field. *)
Lemma alignment_gap_counterexample :
  (cls <- Pair ;;
   w1 <- field_width Struct.linux_x86_64 (field_named cls "lo") ;;
   w2 <- field_width Struct.linux_x86_64 (field_named cls "hi") ;;
   self <- NamedStruct_init cls [("lo", VInt 1); ("hi", VInt 2)] ;;
   bs <- pack self ;;
   Ok (layout (_fields cls), w1, w2, Struct.s_size (_struct cls), bs))
  = Ok ("B H", 1, 2, 4, [x01; x00; x02; x00]).
Proof. vm_compute. reflexivity. Qed.

(** ** Packing an unset field (C8) *)














(** ** Values longer than a string field (C6) *)





(** ** Integers as byte strings *)


Lemma Z_of_byte_range (b : byte) : 0 <= Z_of_byte b < 256.
Proof.
  unfold Z_of_byte. pose proof (Byte.to_N_bounded b). lia.
Qed.




(** ** Round trip (C1) *)

Lemma descr_set_value (f : Field) (obj : instance) (v : value) :
  descr_set f obj v = (w <- set_value f v ;; Field_set f obj w).
Proof.
  unfold descr_set, set_value, StringField_set. destruct (f_class f); reflexivity.
Qed.












(** ** Codecs and null padding *)

Lemma string_of_list_byte_cons (x : byte) (b : list byte) :
  string_of_list_byte (x :: b) = String (ascii_of_byte x) (string_of_list_byte b).
Proof. reflexivity. Qed.


Lemma N_of_ascii_of_byte (x : byte) : N_of_ascii (ascii_of_byte x) = Byte.to_N x.
Proof.
  symmetry. apply Byte.to_of_N.
  rewrite <- byte_of_ascii_via_N, byte_of_ascii_of_byte. reflexivity.
Qed.

Lemma is_ascii_string_of_bytes (b : list byte) :
  Struct.forallb_string Struct.is_ascii (string_of_list_byte b)
  = forallb byte_is_ascii b.
Proof.
  induction b as [|x b IH]; [reflexivity|].
  rewrite string_of_list_byte_cons. simpl. rewrite IH. f_equal.
  unfold Struct.is_ascii, byte_is_ascii. rewrite N_of_ascii_of_byte. reflexivity.
Qed.








Lemma bytes_eqb_refl (b : list byte) : bytes_eqb b b = true.
Proof. unfold bytes_eqb. destruct (list_eq_dec Byte.byte_eq_dec b b); congruence. Qed.


(** ** One item, packed and unpacked *)





(** ** A whole layout, packed and unpacked *)



(** ** From the unpacked values back to an instance *)


Lemma filter_keys_nodup {A B} (p : A * B -> bool) (l : list (A * B)) :
  NoDup (map fst l) -> NoDup (map fst (filter p l)).
Proof.
  induction l as [|x l IH]; simpl; intros H; [constructor|].
  inversion H as [|? ? Hni Hnd]; subst.
  destruct (p x); simpl; [constructor|]; auto.
  intros Hin. apply Hni. apply in_map_iff in Hin.
  destruct Hin as (y & E & Hy). apply filter_In in Hy.
  apply in_map_iff. exists y. tauto.
Qed.




Lemma filter_map_snd {A B} (p : B -> bool) (l : list (A * B)) :
  filter p (map snd l) = map snd (filter (fun x => p (snd x)) l).
Proof.
  induction l as [|x l IH]; simpl; [reflexivity|].
  destruct (p (snd x)); simpl; rewrite IH; reflexivity.
Qed.

Lemma nodup_map_Some {A} (l : list A) : NoDup l -> NoDup (map Some l).
Proof.
  induction 1 as [|x l Hni _ IH]; simpl; constructor; [|assumption].
  intros Hin. apply in_map_iff in Hin. destruct Hin as (y & E & Hy).
  inversion E; subst. contradiction.
Qed.




(** ** What [HasFields] guarantees of every class it builds *)

Section OrderedDictKeys.

Context {K V : Type} (keqb : K -> K -> bool).
Hypothesis keqb_eq : forall a b, keqb a b = true <-> a = b.

Lemma od_set_keys_incl (k x : K) (v : V) (d : list (K * V)) :
  In x (od_keys (od_set keqb k v d)) -> x = k \/ In x (od_keys d).
Proof.
  induction d as [|[k' v'] d IH]; simpl.
  - intros [<-|[]]. auto.
  - destruct (keqb k k') eqn:E; simpl.
    + apply keqb_eq in E. subst. tauto.
    + intros [<-|H]; [tauto|]. destruct (IH H); auto.
Qed.

Lemma od_set_nodup (k : K) (v : V) (d : list (K * V)) :
  NoDup (od_keys d) -> NoDup (od_keys (od_set keqb k v d)).
Proof.
  induction d as [|[k' v'] d IH]; simpl; intros Hnd.
  - repeat constructor. intros [].
  - inversion Hnd as [|? ? Hni Hnd']; subst.
    destruct (keqb k k') eqn:E; simpl.
    + apply keqb_eq in E. subst. constructor; assumption.
    + constructor; [|auto]. intros Hin.
      apply od_set_keys_incl in Hin. destruct Hin as [->|Hin]; [|contradiction].
      rewrite (keqb_refl keqb keqb_eq) in E. discriminate.
Qed.

(** The keys of an [OrderedDict] are distinct. *)
Lemma od_of_list_keys_nodup (l : list (K * V)) :
  NoDup (od_keys (od_of_list keqb l)).
Proof.
  unfold od_of_list.
  assert (G : forall acc, NoDup (od_keys acc) ->
            NoDup (od_keys (fold_left (fun d kv => od_set keqb (fst kv) (snd kv) d)
                                      l acc))).
  { induction l as [|kv l IH]; intros acc Hacc; simpl; [assumption|].
    apply IH. apply od_set_nodup. assumption. }
  apply G. constructor.
Qed.

End OrderedDictKeys.

Lemma assign_name_keys (b : nat) (n owner : string) (table : list (string * Field)) :
  od_keys (assign_name b n owner table) = od_keys table.
Proof.
  unfold assign_name, od_keys. rewrite map_map. apply map_ext.
  intros kf. destruct (Nat.eqb (_field_birthday (snd kf)) b); reflexivity.
Qed.

Lemma bind_names_keys (owner : string) (table : list (string * Field)) :
  od_keys (bind_names owner table) = od_keys table.
Proof.
  unfold bind_names.
  assert (G : forall l acc,
            od_keys (fold_left (fun acc kf =>
                                  assign_name (_field_birthday (snd kf)) (fst kf)
                                              owner acc) l acc)
            = od_keys acc).
  { induction l as [|kf l IH]; intros acc; simpl; [reflexivity|].
    rewrite IH. apply assign_name_keys. }
  apply G.
Qed.

(** Every class [HasFields] builds has its format compiled from its field
    table, and distinct keys in that table. *)
Lemma HasFields_new_sound (pf : Struct.platform) (name : string)
    (attrs : list (string * class_attr)) (cls : struct_type) :
  HasFields_new pf name attrs = Ok cls ->
  compiled pf cls /\ NoDup (od_keys (_fields cls)).
Proof.
  unfold HasFields_new, compiled.
  destruct (negb (body_ok attrs)); [discriminate|].
  intros H. apply bind_Ok in H. destruct H as (st & Hst & H).
  injection H as <-. simpl. split; [assumption|].
  rewrite bind_names_keys.
  apply (od_of_list_keys_nodup String.eqb String.eqb_eq).
Qed.

(** * Further properties of the module *)

(** ** Rendering *)

Lemma init_nonempty_last (s : string) :
  Str.init s <> "" -> exists c, Str.last s = Ok c.
Proof.
  induction s as [|c s IH]; simpl; [congruence|].
  destruct s as [|d s]; [congruence|]. intros _.
  destruct (Str.init (String d s)) eqn:E.
  - destruct s; simpl in *; [eauto|]. discriminate.
  - apply IH. discriminate.
Qed.

Lemma c_type_of_digit (c : ascii) :
  Str.is_digit c = true -> c_type_of c = Raise KeyError.
Proof.
  destruct c as [[] [] [] [] [] [] [] []]; intros H;
    try reflexivity; vm_compute in H; discriminate.
Qed.

Lemma digit_val_nonneg (c : ascii) :
  0 <= Str.digit_val c -> (Str.digit_val c <? 0) = false.
Proof. intros H. apply Z.ltb_ge. assumption. Qed.

Lemma Field_str_cases (f : Field) :
  (Str.init (_fmt f) = "" /\ Field_str f = Raise TypeError)
  \/ (exists c, Str.last (_fmt f) = Ok c /\ Str.is_digit c = false
                /\ Field_str f = Raise ValueError)
  \/ (exists c, Str.last (_fmt f) = Ok c /\ Str.is_digit c = true
                /\ Field_str f = Raise KeyError).
Proof.
  destruct (Str.init (_fmt f)) eqn:Ei.
  - left. split; [reflexivity|]. unfold Field_str.
    rewrite (Field_len_scalar f Ei). reflexivity.
  - right.
    destruct (init_nonempty_last (_fmt f)) as (c & Hc); [congruence|].
    assert (Hlen : Field_len f
                   = (length <- Str.int_of_char c ;;
                      if length <? 0 then Raise TypeError else Ok (Z.abs length))).
    { unfold Field_len. rewrite Ei, Hc. reflexivity. }
    unfold Field_str. rewrite Hlen. unfold Str.int_of_char.
    destruct (Str.is_digit c) eqn:Ed; [right|left]; exists c;
      (split; [exact Hc|split; [exact Ed|]]).
    + cbn [bind]. pose proof (digit_val_range c Ed) as Hr.
      rewrite digit_val_nonneg by lia. cbn [bind].
      unfold fmt_char. rewrite Hc. cbn [bind].
      rewrite (c_type_of_digit c Ed). reflexivity.
    + reflexivity.
Qed.

Lemma Field_str_raises (f : Field) : exists e, Field_str f = Raise e.
Proof.
  destruct (Field_str_cases f) as [[_ H]|[(c & _ & _ & H)|(c & _ & _ & H)]];
    eauto.
Qed.

(** [Field.__str__] returns for no field.  It takes [len(self)] first:
    that raises [TypeError] for a format of at most one character and
    [ValueError] when the last character is no digit; and when the last
    character is a digit, that digit is no key of the table of C types,
    which raises [KeyError]. *)
Theorem Field_str_never_returns (f : Field) :
  (Str.init (_fmt f) = "" /\ Field_str f = Raise TypeError)
  \/ (exists c, Str.last (_fmt f) = Ok c /\ Str.is_digit c = false
                /\ Field_str f = Raise ValueError)
  \/ (exists c, Str.last (_fmt f) = Ok c /\ Str.is_digit c = true
                /\ Field_str f = Raise KeyError).
Proof. exact (Field_str_cases f). Qed.

(** [NamedStruct.__str__] returns the bare ["Name {...}"] frame for a
    class without fields and raises for every instance of a class that
    has a field: formatting the first field calls [Field.__str__]. *)
Theorem NamedStruct_str_raises (self : instance) :
  match _fields (inst_type self) with
  | [] => NamedStruct_str self
          = Ok (cls_name (inst_type self) ++ " {" ++ newline ++ newline ++ "}")%string
  | _ :: _ => exists e, NamedStruct_str self = Raise e
  end.
Proof.
  unfold NamedStruct_str.
  destruct (_fields (inst_type self)) as [|[k f] fs]; [reflexivity|].
  cbn [od_values map snd str_lines].
  destruct (Field_str_raises f) as (e & He). rewrite He.
  destruct (is_significant f); cbn [bind].
  - destruct (od_get name_eqb (_name f) (_values self)); cbn [bind]; eauto.
  - eauto.
Qed.

(** ** Assignment and lookup *)

Section OrderedDictLookup.

Context {K V : Type} (keqb : K -> K -> bool).
Hypothesis keqb_eq : forall a b, keqb a b = true <-> a = b.

Lemma od_get_set_same (k : K) (v : V) (d : list (K * V)) :
  od_get keqb k (od_set keqb k v d) = Some v.
Proof.
  induction d as [|[k' v'] d IH]; simpl.
  - rewrite (keqb_refl keqb keqb_eq). reflexivity.
  - destruct (keqb k k') eqn:E; simpl.
    + rewrite (keqb_refl keqb keqb_eq). reflexivity.
    + rewrite E. assumption.
Qed.

Lemma od_get_set_other (k k' : K) (v : V) (d : list (K * V)) :
  k' <> k -> od_get keqb k' (od_set keqb k v d) = od_get keqb k' d.
Proof.
  intros Hne. induction d as [|[k0 v0] d IH]; simpl.
  - rewrite (keqb_neq keqb keqb_eq) by assumption. reflexivity.
  - destruct (keqb k k0) eqn:E; simpl.
    + apply keqb_eq in E. subst k0.
      rewrite (keqb_neq keqb keqb_eq) by assumption. reflexivity.
    + destruct (keqb k' k0); [reflexivity|assumption].
Qed.

Lemma od_get_Some_in (k : K) (v : V) (d : list (K * V)) :
  od_get keqb k d = Some v -> In (k, v) d.
Proof.
  induction d as [|[k' v'] d IH]; simpl; [discriminate|].
  destruct (keqb k k') eqn:E.
  - apply keqb_eq in E. intros H. inversion H; subst. auto.
  - auto.
Qed.

Lemma od_get_of_list (k : K) (l : list (K * V)) :
  In k (od_keys l) ->
  exists v, od_get keqb k (od_of_list keqb l) = Some v /\ In (k, v) l.
Proof.
  unfold od_of_list.
  assert (G : forall (l : list (K * V)) (acc : list (K * V)),
            (In k (od_keys l)
             \/ exists v, od_get keqb k acc = Some v) ->
            exists v,
              od_get keqb k (fold_left (fun d kv => od_set keqb (fst kv) (snd kv) d)
                                       l acc) = Some v
              /\ (In (k, v) l \/ od_get keqb k acc = Some v)).
  { clear l. induction l as [|[k' v'] l IH]; intros acc H; simpl.
    - destruct H as [[]|(v & Hv)]. exists v. auto.
    - destruct (keqb k k') eqn:E.
      + apply keqb_eq in E. subst k'.
        destruct (IH (od_set keqb k v' acc)) as (v & H1 & H2).
        { right. exists v'. apply od_get_set_same. }
        exists v. split; [assumption|]. left.
        destruct H2 as [H2|H2]; [auto|].
        rewrite od_get_set_same in H2. inversion H2; subst. auto.
      + assert (Hne : k <> k') by (intros ->;
          rewrite (keqb_refl keqb keqb_eq) in E; discriminate).
        destruct (IH (od_set keqb k' v' acc)) as (v & H1 & H2).
        { destruct H as [[H|H]|(v & Hv)].
          - simpl in H. congruence.
          - auto.
          - right. exists v. rewrite od_get_set_other; assumption. }
        exists v. split; [assumption|].
        destruct H2 as [H2|H2]; [auto|].
        rewrite od_get_set_other in H2 by assumption. auto. }
  intros Hin. destruct (G l [] (or_introl Hin)) as (v & H1 & [H2|H2]).
  - eauto.
  - discriminate.
Qed.

End OrderedDictLookup.

Lemma set_value_plain (f : Field) (v : value) :
  f_class f <> IsStringField -> set_value f v = Ok v.
Proof. unfold set_value. destruct (f_class f); intros H; congruence. Qed.

(** Assigning a field that is not a string field stores the value as it
    is: reading the field gives it back, every field of another name
    reads as before, and nothing else of the instance changes. *)
Theorem Field_set_then_get (f : Field) (obj : instance) (v : value) :
  f_class f <> IsStringField ->
  exists obj',
    descr_set f obj v = Ok obj'
    /\ descr_get f obj' = Ok v
    /\ (forall g, _name g <> _name f -> descr_get g obj' = descr_get g obj)
    /\ inst_type obj' = inst_type obj
    /\ inst_dict obj' = inst_dict obj.
Proof.
  intros Hc.
  exists {| inst_type := inst_type obj;
            _values := od_set name_eqb (_name f) v (_values obj);
            inst_dict := inst_dict obj |}.
  split; [|split; [|split; [|split; reflexivity]]].
  - rewrite descr_set_value, (set_value_plain f v Hc). reflexivity.
  - unfold descr_get, Field_get. cbn [_values].
    rewrite (od_get_set_same name_eqb name_eqb_eq).
    destruct (f_class f); congruence.
  - intros g Hg. unfold descr_get, StringField_get, Field_get. cbn [_values].
    rewrite (od_get_set_other name_eqb name_eqb_eq) by assumption. reflexivity.
Qed.

Lemma Field_set_then_get_witness :
  exists obj',
    descr_set (field_named Foo_cls "a") foo_obj (VInt 7) = Ok obj'
    /\ descr_get (field_named Foo_cls "a") obj' = Ok (VInt 7)
    /\ (forall g, _name g <> _name (field_named Foo_cls "a") ->
                  descr_get g obj' = descr_get g foo_obj)
    /\ inst_type obj' = inst_type foo_obj
    /\ inst_dict obj' = inst_dict foo_obj.
Proof.
  apply (Field_set_then_get (field_named Foo_cls "a") foo_obj (VInt 7)).
  discriminate.
Defined.

(** ** What construction keeps *)

Lemma bound_class_lookup (cls : struct_type) (n : string) (f : Field) :
  bound_class cls ->
  od_get String.eqb n (_fields cls) = Some f ->
  In (n, f) (_fields cls) /\ _name f = Some n.
Proof.
  intros [_ Hb] Hget.
  apply (od_get_Some_in String.eqb String.eqb_eq) in Hget.
  split; [assumption|]. rewrite Forall_forall in Hb. apply (Hb _ Hget).
Qed.

Lemma setattr_inv (self self' : instance) (n : string) (v : value) :
  setattr self n v = Ok self' ->
  inst_type self' = inst_type self
  /\ match od_get String.eqb n (_fields (inst_type self)) with
     | Some f => exists w, _values self' = od_set name_eqb (_name f) w (_values self)
                           /\ set_value f v = Ok w
                           /\ inst_dict self' = inst_dict self
     | None => _values self' = _values self
     end.
Proof.
  unfold setattr. destruct (reserved n); [discriminate|].
  destruct (od_get String.eqb n (_fields (inst_type self))) as [f|].
  - rewrite descr_set_value. intros H. apply bind_Ok in H.
    destruct H as (w & Hw & H). unfold Field_set in H. inversion H; subst.
    simpl. split; [reflexivity|]. exists w. auto.
  - intros H. inversion H; subst. simpl. auto.
Qed.

(** A field that no keyword names keeps the value it had. *)
Lemma set_all_preserves (cls : struct_type) (n : string) :
  bound_class cls ->
  forall kwargs self inst,
    inst_type self = cls ->
    ~ In n (map fst kwargs) ->
    set_all self kwargs = Ok inst ->
    inst_type inst = cls
    /\ od_get name_eqb (Some n) (_values inst)
       = od_get name_eqb (Some n) (_values self).
Proof.
  intros Hb. induction kwargs as [|[m v] kwargs IH]; intros self inst Ht Hni H;
    simpl in H.
  - inversion H; subst. auto.
  - apply bind_Ok in H. destruct H as (self' & Hs & H).
    destruct (setattr_inv _ _ _ _ Hs) as [Ht' Hv].
    simpl in Hni. rewrite Ht in Hv.
    destruct (IH self' inst) as [H1 H2]; try assumption; [congruence|tauto|].
    split; [assumption|]. rewrite H2.
    destruct (od_get String.eqb m (_fields cls)) as [g|] eqn:Eg.
    + destruct Hv as (w & -> & _).
      destruct (bound_class_lookup cls m g Hb Eg) as [_ Hname].
      rewrite Hname.
      apply (od_get_set_other name_eqb name_eqb_eq). intros E.
      inversion E. subst. tauto.
    + rewrite Hv. reflexivity.
Qed.

(** A significant field that the keywords of a construction do not name
    is left unset: the value mapping holds [None] under its name.
    Reading it gives [None] for a field that is no string field, and
    raises [AttributeError] for a string field, whose [__get__] calls
    [decode] on that [None]. *)
Theorem unprovided_field_holds_None (cls : struct_type)
    (kwargs : list (string * value)) (inst : instance) (n : string) (f : Field) :
  bound_class cls ->
  In (n, f) (_fields cls) ->
  is_significant f = true ->
  ~ In n (map fst kwargs) ->
  NamedStruct_init cls kwargs = Ok inst ->
  od_get name_eqb (Some n) (_values inst) = Some VNone
  /\ descr_get f inst = match f_class f with
                        | IsStringField => Raise AttributeError
                        | IsField | IsPadding => Ok VNone
                        end.
Proof.
  intros Hb Hin Hsig Hni Hinit.
  apply NamedStruct_init_Ok in Hinit. destruct Hinit as [_ Hinit].
  pose proof (fun Ht => set_all_preserves cls n Hb kwargs _ inst Ht Hni Hinit) as P.
  destruct (P eq_refl) as [_ Hget]. clear P.
  cbn [_values] in Hget.
  assert (Hname : _name f = Some n).
  { destruct Hb as [_ Hb]. rewrite Forall_forall in Hb. apply (Hb _ Hin). }
  assert (Hval : od_get name_eqb (Some n) (_values inst) = Some VNone).
  { rewrite Hget.
    destruct (od_get_of_list name_eqb name_eqb_eq (Some n)
                (map (fun f => (_name f, VNone)) (significant_fields cls)))
      as (v & Hv & Hinv).
    - unfold od_keys. rewrite map_map. simpl. rewrite <- Hname.
      apply in_map. unfold significant_fields. apply filter_In.
      split; [|assumption].
      unfold od_values. change f with (snd (n, f)). apply in_map. assumption.
    - rewrite Hv. apply in_map_iff in Hinv. destruct Hinv as (g & E & _).
      inversion E. reflexivity. }
  split; [exact Hval|].
  unfold descr_get, StringField_get, Field_get. rewrite Hname, Hval.
  destruct (f_class f); reflexivity.
Qed.

Lemma unprovided_field_holds_None_witness :
  od_get name_eqb (Some "s")
    (_values (returned no_instance (NamedStruct_init Foo_cls [("a", VInt 1)])))
  = Some VNone
  /\ descr_get (field_named Foo_cls "s")
       (returned no_instance (NamedStruct_init Foo_cls [("a", VInt 1)]))
     = Raise AttributeError.
Proof.
  apply (unprovided_field_holds_None Foo_cls [("a", VInt 1)] _ "s"
           (field_named Foo_cls "s")).
  - split.
    + repeat constructor; simpl; intuition discriminate.
    + repeat constructor.
  - simpl. auto.
  - reflexivity.
  - simpl. intuition discriminate.
  - reflexivity.
Defined.

Lemma set_all_sets (cls : struct_type) (n : string) (f : Field) (v : value) :
  bound_class cls ->
  od_get String.eqb n (_fields cls) = Some f ->
  f_class f <> IsStringField ->
  forall kwargs self inst,
    inst_type self = cls ->
    NoDup (map fst kwargs) ->
    In (n, v) kwargs ->
    set_all self kwargs = Ok inst ->
    od_get name_eqb (Some n) (_values inst) = Some v.
Proof.
  intros Hb Hget Hc.
  destruct (bound_class_lookup cls n f Hb Hget) as [_ Hname].
  induction kwargs as [|[m u] kwargs IH]; intros self inst Ht Hnd Hin H;
    [destruct Hin|].
  simpl in H. apply bind_Ok in H. destruct H as (self' & Hs & H).
  destruct (setattr_inv _ _ _ _ Hs) as [Ht' Hv]. rewrite Ht in Hv, Ht'.
  simpl in Hnd. inversion Hnd as [|? ? Hni Hnd']; subst.
  destruct Hin as [E|Hin].
  - inversion E; subst. rewrite Hget in Hv.
    destruct Hv as (w & Hvals & Hw & _).
    rewrite (set_value_plain f v Hc) in Hw. inversion Hw; subst w.
    destruct (set_all_preserves (inst_type self) n Hb kwargs self' inst Ht' Hni H)
      as [_ Hp].
    rewrite Hp, Hvals, Hname. apply (od_get_set_same name_eqb name_eqb_eq).
  - apply (IH self' inst); assumption.
Qed.

(** A keyword that names a field other than a string field is read back
    from the new instance as it was given. *)
Theorem provided_field_is_kept (cls : struct_type)
    (kwargs : list (string * value)) (inst : instance) (n : string) (f : Field)
    (v : value) :
  bound_class cls ->
  In (n, f) (_fields cls) ->
  f_class f <> IsStringField ->
  NoDup (map fst kwargs) ->
  In (n, v) kwargs ->
  NamedStruct_init cls kwargs = Ok inst ->
  Field_get f inst = Ok v.
Proof.
  intros Hb Hin Hc Hnd Hkw Hinit. apply NamedStruct_init_Ok in Hinit. destruct Hinit as [_ Hinit].
  assert (Hget : od_get String.eqb n (_fields cls) = Some f).
  { destruct Hb as [Hk _]. apply (od_get_in String.eqb String.eqb_eq); assumption. }
  destruct (bound_class_lookup cls n f Hb Hget) as [_ Hname].
  unfold Field_get. rewrite Hname.
  pose proof (fun Ht => set_all_sets cls n f v Hb Hget Hc kwargs _ inst Ht Hnd Hkw Hinit)
    as P.
  rewrite (P eq_refl). reflexivity.
Qed.

Lemma provided_field_is_kept_witness :
  Field_get (field_named Foo_cls "b")
            (returned no_instance
               (NamedStruct_init Foo_cls [("b", VInt 171); ("a", VInt 1)]))
  = Ok (VInt 171).
Proof.
  apply (provided_field_is_kept Foo_cls [("b", VInt 171); ("a", VInt 1)] _ "b").
  - split.
    + repeat constructor; simpl; intuition discriminate.
    + repeat constructor.
  - simpl. auto.
  - discriminate.
  - repeat constructor; simpl; intuition discriminate.
  - simpl. auto.
  - reflexivity.
Defined.

(** ** The keys of the value mapping *)

Lemma significant_names_in (cls : struct_type) (n : string) (f : Field) :
  bound_class cls ->
  od_get String.eqb n (_fields cls) = Some f ->
  is_significant f = true ->
  In (_name f) (map _name (significant_fields cls)).
Proof.
  intros Hb Hget Hsig.
  destruct (bound_class_lookup cls n f Hb Hget) as [Hin _].
  apply in_map. unfold significant_fields. apply filter_In. split; [|assumption].
  unfold od_values. change f with (snd (n, f)). apply in_map. assumption.
Qed.

Lemma set_all_keys (cls : struct_type) :
  bound_class cls ->
  forall kwargs self inst,
    names_significant cls kwargs ->
    inst_type self = cls ->
    od_keys (_values self) = map _name (significant_fields cls) ->
    set_all self kwargs = Ok inst ->
    inst_type inst = cls
    /\ od_keys (_values inst) = map _name (significant_fields cls).
Proof.
  intros Hb. induction kwargs as [|[m v] kwargs IH];
    intros self inst Hns Ht Hk H; simpl in H.
  - inversion H; subst. auto.
  - apply bind_Ok in H. destruct H as (self' & Hs & H).
    destruct (setattr_inv _ _ _ _ Hs) as [Ht' Hv]. rewrite Ht in Hv, Ht'.
    apply (IH self' inst); try assumption.
    + intros n Hn. apply Hns. simpl. auto.
    + pose proof (Hns m (or_introl eq_refl)) as Hm.
      destruct (od_get String.eqb m (_fields cls)) as [g|] eqn:Eg.
      * destruct Hv as (w & -> & _).
        rewrite (od_set_keys_in name_eqb name_eqb_eq); [assumption|].
        rewrite Hk. apply (significant_names_in cls m g); assumption.
      * rewrite Hv. assumption.
Qed.

Lemma significant_names_nodup (cls : struct_type) :
  bound_class cls -> NoDup (map _name (significant_fields cls)).
Proof.
  intros [Hk Hb]. unfold significant_fields, od_values.
  rewrite filter_map_snd, map_map.
  rewrite (map_ext_in _ (fun kf : string * Field => Some (fst kf))).
  - rewrite <- (map_map fst Some). apply nodup_map_Some.
    apply filter_keys_nodup. exact Hk.
  - intros kf Hin. apply filter_In in Hin. destruct Hin as [Hin _].
    rewrite Forall_forall in Hb. apply (Hb _ Hin).
Qed.

Lemma init_values_keys (cls : struct_type) :
  bound_class cls ->
  od_keys (od_of_list name_eqb
             (map (fun f => (_name f, VNone)) (significant_fields cls)))
  = map _name (significant_fields cls).
Proof.
  intros Hb.
  rewrite (od_of_list_nodup name_eqb name_eqb_eq).
  - unfold od_keys. rewrite map_map. reflexivity.
  - unfold od_keys. rewrite map_map. simpl.
    apply significant_names_nodup. assumption.
Qed.

Lemma init_keys (cls : struct_type) (kwargs : list (string * value))
    (inst : instance) :
  bound_class cls ->
  names_significant cls kwargs ->
  NamedStruct_init cls kwargs = Ok inst ->
  inst_type inst = cls
  /\ od_keys (_values inst) = map _name (significant_fields cls).
Proof.
  intros Hb Hns Hinit. apply NamedStruct_init_Ok in Hinit. destruct Hinit as [_ Hinit].
  pose proof (fun Ht Hk => set_all_keys cls Hb kwargs _ inst Hns Ht Hk Hinit) as P.
  apply P; [reflexivity|]. cbn [_values]. apply init_values_keys. assumption.
Qed.

(** Construction keeps the value mapping on the significant fields, in
    table order, whatever keywords it is given and in whatever order, as
    long as none of them names a padding field. *)
Theorem init_keeps_keys (cls : struct_type) (kwargs : list (string * value))
    (inst : instance) :
  bound_class cls ->
  names_significant cls kwargs ->
  NamedStruct_init cls kwargs = Ok inst ->
  inst_type inst = cls
  /\ od_keys (_values inst) = map _name (significant_fields cls).
Proof. apply init_keys. Qed.

Lemma init_keeps_keys_witness :
  inst_type (returned no_instance
               (NamedStruct_init Foo_cls [("s", VStr "x"); ("zz", VNone); ("a", VInt 1)]))
  = Foo_cls
  /\ od_keys (_values (returned no_instance
               (NamedStruct_init Foo_cls [("s", VStr "x"); ("zz", VNone); ("a", VInt 1)])))
     = map _name (significant_fields Foo_cls).
Proof.
  apply (init_keeps_keys Foo_cls [("s", VStr "x"); ("zz", VNone); ("a", VInt 1)]).
  - split.
    + repeat constructor; simpl; intuition discriminate.
    + repeat constructor.
  - intros n [<-|[<-|[<-|[]]]]; reflexivity || exact I.
  - reflexivity.
Defined.

Lemma seq_kwargs_names (fs : list Field) :
  forall vs acc kw,
    seq_kwargs fs vs acc = Ok kw ->
    forall n, In n (od_keys kw) ->
      In n (od_keys acc) \/ exists f, In f fs /\ _name f = Some n.
Proof.
  induction fs as [|f fs IH]; intros vs acc kw H n Hn; simpl in H.
  - inversion H; subst. auto.
  - destruct vs as [|v vs]; [inversion H; subst; auto|].
    destruct (_name f) as [m|] eqn:Ef; [|discriminate].
    destruct (IH _ _ _ H n Hn) as [Hin|(g & Hg & Hname)].
    + apply od_set_keys_incl in Hin; [|apply String.eqb_eq].
      destruct Hin as [->|Hin]; [|auto].
      right. exists f. simpl. auto.
    + right. exists g. simpl. auto.
Qed.

Lemma set_all_dict (cls : struct_type) :
  forall kwargs self inst,
    (forall n, In n (map fst kwargs) ->
               od_get String.eqb n (_fields cls) <> None) ->
    inst_type self = cls ->
    set_all self kwargs = Ok inst ->
    inst_dict inst = inst_dict self.
Proof.
  induction kwargs as [|[m v] kwargs IH]; intros self inst Hf Ht H; simpl in H.
  - inversion H; subst. reflexivity.
  - apply bind_Ok in H. destruct H as (self' & Hs & H).
    destruct (setattr_inv _ _ _ _ Hs) as [Ht' Hv]. rewrite Ht in Hv, Ht'.
    rewrite (IH self' inst); try assumption.
    + pose proof (Hf m (or_introl eq_refl)) as Hm.
      destruct (od_get String.eqb m (_fields cls)); [|congruence].
      destruct Hv as (w & _ & _ & Hd). assumption.
    + intros n Hn. apply Hf. simpl. auto.
Qed.

(** Whenever [unpack] returns, the instance is of the class asked for,
    its value mapping lists exactly the significant fields, in table
    order, and it carries no other attribute: padding leaves no trace. *)
Theorem unpack_keeps_keys (cls : struct_type) (buf : list byte) (inst : instance) :
  bound_class cls ->
  unpack cls buf = Ok inst ->
  inst_type inst = cls
  /\ od_keys (_values inst) = map _name (significant_fields cls)
  /\ inst_dict inst = [].
Proof.
  intros Hb Hu. unfold unpack in Hu.
  apply bind_Ok in Hu. destruct Hu as (vals & _ & Hu).
  unfold _from_seq in Hu. apply bind_Ok in Hu. destruct Hu as (kw & Hkw & Hinit).
  assert (Hnames : forall n, In n (map fst kw) ->
             exists f, od_get String.eqb n (_fields cls) = Some f
                       /\ is_significant f = true).
  { intros n Hn.
    destruct (seq_kwargs_names _ _ _ _ Hkw n Hn) as [[]|(f & Hf & Hname)].
    unfold significant_fields in Hf. apply filter_In in Hf.
    destruct Hf as [Hf Hsig]. unfold od_values in Hf.
    apply in_map_iff in Hf. destruct Hf as ([k g] & E & Hin). simpl in E. subst g.
    destruct Hb as [Hk Hbound]. rewrite Forall_forall in Hbound.
    pose proof (Hbound _ Hin) as Hkf. simpl in Hkf.
    rewrite Hname in Hkf. inversion Hkf; subst k.
    exists f. split; [|assumption].
    apply (od_get_in String.eqb String.eqb_eq); assumption. }
  assert (Hns : names_significant cls kw).
  { intros n Hn. destruct (Hnames n Hn) as (f & -> & Hsig). assumption. }
  destruct (init_keys cls kw inst Hb Hns Hinit) as [Ht Hk].
  split; [assumption|]. split; [assumption|].
  apply NamedStruct_init_Ok in Hinit. destruct Hinit as [_ Hinit].
  pose proof (fun Hf Ht => set_all_dict cls kw _ inst Hf Ht Hinit) as P.
  rewrite P; [reflexivity| |reflexivity].
  intros n Hn. destruct (Hnames n Hn) as (f & -> & _). discriminate.
Qed.

Lemma unpack_keeps_keys_witness :
  inst_type (returned no_instance (unpack Foo_cls (zeros 29))) = Foo_cls
  /\ od_keys (_values (returned no_instance (unpack Foo_cls (zeros 29))))
     = map _name (significant_fields Foo_cls)
  /\ inst_dict (returned no_instance (unpack Foo_cls (zeros 29))) = [].
Proof.
  apply (unpack_keeps_keys Foo_cls (zeros 29)).
  - split.
    + repeat constructor; simpl; intuition discriminate.
    + repeat constructor.
  - reflexivity.
Defined.

(** ** Assigning a padding field *)

Lemma od_get_None_not_in {K V} (keqb : K -> K -> bool)
    (keqb_eq : forall a b, keqb a b = true <-> a = b) (k : K) (d : list (K * V)) :
  od_get keqb k d = None -> ~ In k (od_keys d).
Proof.
  induction d as [|[k' v] d IH]; simpl; [tauto|].
  destruct (keqb k k') eqn:E; [discriminate|].
  intros H [Hk|Hin]; [|exact (IH H Hin)].
  subst. rewrite (keqb_refl keqb keqb_eq) in E. discriminate.
Qed.

(** Nothing stops an assignment to a padding field.  On an instance that
    holds as many values as its layout takes, assigning a field that has
    no entry in the value mapping adds one, and from then on [pack] fails
    with the struct library's error: it is handed one value too many. *)
Theorem padding_assignment_breaks_pack (self : instance) (n : string)
    (f : Field) (v : value) :
  od_get String.eqb n (_fields (inst_type self)) = Some f ->
  reserved n = false ->
  f_class f <> IsStringField ->
  od_get name_eqb (_name f) (_values self) = None ->
  Z.of_nat (List.length (_values self)) = Struct.s_len (_struct (inst_type self)) ->
  exists self',
    setattr self n v = Ok self'
    /\ _values self' = _values self ++ [(_name f, v)]
    /\ pack self' = Raise StructError.
Proof.
  intros Hget Hres Hc Hnone Hlen.
  exists {| inst_type := inst_type self;
            _values := _values self ++ [(_name f, v)];
            inst_dict := inst_dict self |}.
  split; [|split; [reflexivity|]].
  - unfold setattr. rewrite Hres, Hget, descr_set_value, (set_value_plain f v Hc).
    cbn [bind]. unfold Field_set.
    rewrite (od_set_keys_new name_eqb name_eqb_eq); [reflexivity|].
    apply (od_get_None_not_in name_eqb name_eqb_eq). assumption.
  - unfold pack, Struct.pack, _to_seq, od_values. cbn [inst_type _values].
    rewrite length_map, length_app. cbn [List.length].
    replace (Z.of_nat (List.length (_values self) + 1)
             =? Struct.s_len (_struct (inst_type self))) with false;
      [reflexivity|].
    symmetry. apply Z.eqb_neq. lia.
Qed.

Lemma padding_assignment_breaks_pack_witness :
  exists self',
    setattr foo_obj "dummy" (VInt 0) = Ok self'
    /\ _values self'
       = _values foo_obj ++ [(_name (field_named Foo_cls "dummy"), VInt 0)]
    /\ pack self' = Raise StructError.
Proof.
  apply (padding_assignment_breaks_pack foo_obj "dummy"
           (field_named Foo_cls "dummy") (VInt 0)).
  - reflexivity.
  - reflexivity.
  - discriminate.
  - reflexivity.
  - reflexivity.
Defined.

(** ** String fields *)

Lemma bytes_of_ascii_string (s : string) :
  forallb byte_is_ascii (list_byte_of_string s)
  = Struct.forallb_string Struct.is_ascii s.
Proof.
  rewrite <- (string_of_list_byte_of_string s) at 2.
  symmetry. apply is_ascii_string_of_bytes.
Qed.

(** Decoding undoes encoding. *)
Lemma decode_encode (e : encoding) (s : string) (b : list byte) :
  encode e s = Ok b -> decode e b = Ok s.
Proof.
  unfold decode, encode. destruct e.
  - destruct (Struct.forallb_string Struct.is_ascii s) eqn:E; [|discriminate].
    intros H. inversion H; subst.
    rewrite bytes_of_ascii_string, E, string_of_list_byte_of_string. reflexivity.
  - intros H. inversion H; subst.
    rewrite string_of_list_byte_of_string. reflexivity.
Qed.

(** What a string field stores for a text: bytes that decode, in the
    field's codec, to that text, less its trailing null characters when
    [strip_null] is on. *)
Theorem StringField_stores_text (f : Field) (obj obj' : instance) (s : string) :
  f_class f = IsStringField ->
  descr_set f obj (VStr s) = Ok obj' ->
  exists b,
    Field_get f obj' = Ok (VBytes b)
    /\ decode (_encoding f) b
       = Ok (if _strip_null f then Str.rstrip_nul s else s).
Proof.
  intros Hc H. rewrite (descr_set_text f obj s Hc) in H.
  apply bind_Ok in H. destruct H as (b & Hb & H).
  unfold Field_set in H. inversion H; subst. exists b. split.
  - unfold Field_get. cbn [_values].
    rewrite (od_get_set_same name_eqb name_eqb_eq). reflexivity.
  - apply decode_encode. assumption.
Qed.

Lemma StringField_stores_text_witness :
  exists b,
    Field_get (field_named Foo_cls "s")
      (returned no_instance (setattr foo_obj "s" (VStr (nul_terminated "ok"))))
    = Ok (VBytes b)
    /\ decode (_encoding (field_named Foo_cls "s")) b
       = Ok (if _strip_null (field_named Foo_cls "s")
             then Str.rstrip_nul (nul_terminated "ok")
             else nul_terminated "ok").
Proof.
  apply (StringField_stores_text (field_named Foo_cls "s") foo_obj _
           (nul_terminated "ok")); reflexivity.
Defined.

Lemma rstrip_by_idempotent (p : ascii -> bool) (s : string) :
  Str.rstrip_by p (Str.rstrip_by p s) = Str.rstrip_by p s.
Proof.
  induction s as [|c s IH]; [reflexivity|]. simpl.
  destruct (Str.rstrip_by p s) as [|d r] eqn:E.
  - destruct (p c) eqn:Ec; simpl; [reflexivity|]. rewrite Ec. reflexivity.
  - simpl in *. rewrite IH. reflexivity.
Qed.

Lemma StringField_value_Ok (f : Field) (v w : value) :
  StringField_value f v = Ok w ->
  exists s b,
    w = VBytes b /\ encode (_encoding f) s = Ok b
    /\ (_strip_null f = true -> Str.rstrip_nul s = s).
Proof.
  unfold StringField_value. intros H.
  apply bind_Ok in H. destruct H as (v1 & _ & H).
  apply bind_Ok in H. destruct H as (v2 & H2 & H).
  destruct v2 as [| | |s|]; try discriminate.
  apply bind_Ok in H. destruct H as (b & Hb & H). inversion H; subst.
  exists s, b. repeat split; [assumption|].
  intros Hs. rewrite Hs in H2. destruct v1; try discriminate.
  inversion H2. apply rstrip_by_idempotent.
Qed.

(** The value a string field stores is a fixed point of assignment:
    assigning the field the bytes it holds stores the same bytes.  This
    is the assignment [unpack] performs with the bytes it reads. *)
Theorem StringField_value_idempotent (f : Field) (v w : value) :
  StringField_value f v = Ok w -> StringField_value f w = Ok w.
Proof.
  intros H. destruct (StringField_value_Ok f v w H) as (s & b & -> & Hb & Hs).
  unfold StringField_value. rewrite (decode_encode _ _ _ Hb). cbn [bind].
  destruct (_strip_null f); cbn [bind].
  - rewrite (Hs eq_refl), Hb. reflexivity.
  - rewrite Hb. reflexivity.
Qed.

Lemma StringField_value_idempotent_witness :
  StringField_value (field_named Foo_cls "s") (VBytes [x68; x69])
  = Ok (VBytes [x68; x69]).
Proof.
  apply (StringField_value_idempotent (field_named Foo_cls "s")
           (VStr (nul_terminated "hi"))).
  reflexivity.
Defined.

Lemma rstrip_by_keeps (p q : ascii -> bool) (s : string) :
  (forall c, q c = true -> p c = true) ->
  Struct.forallb_string p (Str.rstrip_by q s) = Struct.forallb_string p s.
Proof.
  intros Hq. induction s as [|c s IH]; [reflexivity|]. simpl.
  destruct (Str.rstrip_by q s) as [|d r] eqn:E.
  - simpl in IH. rewrite <- IH. destruct (q c) eqn:Ec; simpl.
    + rewrite (Hq c Ec). reflexivity.
    + rewrite andb_true_r. reflexivity.
  - rewrite <- IH. reflexivity.
Qed.

(** What a string field refuses.  [None], a [bool] or an [int] has no
    [encode] method: [AttributeError].  In an ascii field, a text with a
    character above 127 raises [UnicodeEncodeError] and bytes with a byte
    above 127 raise [UnicodeDecodeError]. *)
Theorem StringField_set_rejects (f : Field) (obj : instance) :
  f_class f = IsStringField ->
  (forall v, match v with VStr _ | VBytes _ => False | _ => True end ->
             descr_set f obj v = Raise AttributeError)
  /\ (forall s, _encoding f = ascii_ ->
                Struct.forallb_string Struct.is_ascii s = false ->
                descr_set f obj (VStr s) = Raise UnicodeEncodeError)
  /\ (forall b, _encoding f = ascii_ ->
                forallb byte_is_ascii b = false ->
                descr_set f obj (VBytes b) = Raise UnicodeDecodeError).
Proof.
  intros Hc. split; [|split].
  - intros v Hv. unfold descr_set, StringField_set, StringField_value.
    rewrite Hc. destruct v; try contradiction;
      destruct (_strip_null f); reflexivity.
  - intros s He Hs. rewrite (descr_set_text f obj s Hc), He. unfold encode.
    replace (Struct.forallb_string Struct.is_ascii
               (if _strip_null f then Str.rstrip_nul s else s)) with false;
      [reflexivity|].
    destruct (_strip_null f); [|congruence].
    unfold Str.rstrip_nul. rewrite rstrip_by_keeps; [congruence|].
    intros c Ec. apply Ascii.eqb_eq in Ec. subst c. reflexivity.
  - intros b He Hb. unfold descr_set, StringField_set, StringField_value.
    rewrite Hc, He. unfold decode. rewrite Hb. reflexivity.
Qed.

Lemma StringField_set_rejects_witness :
  (forall v, match v with VStr _ | VBytes _ => False | _ => True end ->
             descr_set (field_named Foo_cls "s") foo_obj v = Raise AttributeError)
  /\ (forall s, _encoding (field_named Foo_cls "s") = ascii_ ->
                Struct.forallb_string Struct.is_ascii s = false ->
                descr_set (field_named Foo_cls "s") foo_obj (VStr s)
                = Raise UnicodeEncodeError)
  /\ (forall b, _encoding (field_named Foo_cls "s") = ascii_ ->
                forallb byte_is_ascii b = false ->
                descr_set (field_named Foo_cls "s") foo_obj (VBytes b)
                = Raise UnicodeDecodeError).
Proof.
  apply (StringField_set_rejects (field_named Foo_cls "s") foo_obj).
  reflexivity.
Defined.

(** ** What the constructors make *)

Lemma last_app_char (s : string) (c : ascii) :
  Str.last (s ++ String c "") = Ok c.
Proof.
  induction s as [|d s IH]; [reflexivity|].
  simpl. destruct (s ++ String c "")%string eqn:E; [|assumption].
  destruct s; discriminate.
Qed.

Lemma rstrip_by_last (p : ascii -> bool) (s : string) (c : ascii) :
  p c = false ->
  Str.rstrip_by p (s ++ String c "") = (s ++ String c "")%string.
Proof.
  intros Hc. induction s as [|d s IH]; simpl.
  - rewrite Hc. reflexivity.
  - rewrite IH. destruct (s ++ String c "")%string eqn:E; [|reflexivity].
    destruct s; discriminate.
Qed.

Lemma lstrip_by_last (p : ascii -> bool) (t : string) (c : ascii) :
  Str.last t = Ok c -> p c = false -> Str.last (Str.lstrip_by p t) = Ok c.
Proof.
  intros Hl Hc. induction t as [|d t IH]; [assumption|].
  cbn [Str.lstrip_by]. destruct (p d) eqn:Ed; [|assumption].
  apply IH. simpl in Hl. destruct t as [|e t].
  - inversion Hl; subst. congruence.
  - assumption.
Qed.

(** A format made of anything followed by a character that is not white
    space still ends in that character once stripped. *)
Lemma strip_last (s : string) (c : ascii) :
  Str.isspace c = false ->
  Str.last (Str.strip (s ++ String c "")) = Ok c.
Proof.
  intros Hc. unfold Str.strip. rewrite (rstrip_by_last _ _ _ Hc).
  apply lstrip_by_last; [apply last_app_char|assumption].
Qed.

(** A padding field is never significant and a string field always is,
    whatever the length they are created with and whenever they are
    created. *)
Theorem padding_never_significant :
  (forall n_bytes n, is_significant (fst (Padding_init n_bytes n)) = false)
  /\ (forall len enc sn n,
         is_significant (fst (StringField_init len enc sn n)) = true).
Proof.
  split.
  - intros n_bytes n. unfold is_significant, Str.endswith. cbn [Padding_init
      StringField_init Field_init fst _fmt].
    rewrite (strip_last (Str.of_Z n_bytes) "x"); reflexivity.
  - intros len enc sn n. unfold is_significant, Str.endswith. cbn [Padding_init
      StringField_init Field_init fst _fmt].
    rewrite (strip_last (Str.of_Z len) "s"); reflexivity.
Qed.

(** ** Birthdays *)

Lemma declare_counter (body : list (string * ctor)) (n : counter) :
  snd (declare body n) = (n + List.length body)%nat.
Proof.
  revert n. induction body as [|[name c] body IH]; intros n; simpl.
  - lia.
  - pose proof (construct_birthday c n) as [_ Hs].
    destruct (construct c n) as [f n1]. simpl in Hs. subst n1.
    specialize (IH (S n)). destruct (declare body (S n)) as [fs n2].
    simpl in *. lia.
Qed.

Lemma declare_birthdays_seq (body : list (string * ctor)) (n : counter) :
  map (fun kf => _field_birthday (snd kf)) (fst (declare body n))
  = seq n (List.length body).
Proof.
  revert n. induction body as [|[name c] body IH]; intros n; [reflexivity|].
  rewrite declare_cons. simpl. f_equal; [|apply IH].
  apply construct_birthday.
Qed.

(** Birthdays count the fields created: the fields of a class body
    declared when the counter reads [n] get [n], [n+1], ... in the order
    of the lines and leave the counter past the last of them; so the
    fields of two bodies declared one after the other never share a
    birthday. *)
Theorem birthdays_never_repeat (body1 body2 : list (string * ctor)) (n : counter) :
  map (fun kf => _field_birthday (snd kf)) (fst (declare body1 n))
  = seq n (List.length body1)
  /\ snd (declare body1 n) = (n + List.length body1)%nat
  /\ NoDup (map (fun kf => _field_birthday (snd kf))
              (fst (declare body1 n)
               ++ fst (declare body2 (snd (declare body1 n))))).
Proof.
  split; [apply declare_birthdays_seq|]. split; [apply declare_counter|].
  rewrite map_app, !declare_birthdays_seq, declare_counter.
  rewrite <- seq_app. apply seq_NoDup.
Qed.

(** ** Any attribute mapping *)

Lemma field_items_keys_incl (attrs : list (string * class_attr)) (k : string) :
  In k (map fst (field_items attrs)) -> In k (map fst attrs).
Proof.
  induction attrs as [|[n [f|]] attrs IH]; simpl; [tauto| |]; intros H.
  - destruct H; auto.
  - auto.
Qed.

Lemma field_items_keys_nodup (attrs : list (string * class_attr)) :
  NoDup (map fst attrs) -> NoDup (map fst (field_items attrs)).
Proof.
  induction attrs as [|[n [f|]] attrs IH]; simpl; intros H;
    inversion H as [|? ? Hni Hnd]; subst; [constructor| |auto].
  constructor; [|auto]. intros Hin. apply Hni.
  apply field_items_keys_incl. assumption.
Qed.

Lemma sorted_strict (l : list (string * Field)) :
  StronglySorted birthday_le l ->
  NoDup (map (fun kf => _field_birthday (snd kf)) l) ->
  StronglySorted birthday_lt l.
Proof.
  induction 1 as [|x l Hs IH Hall]; intros Hnd; [constructor|].
  simpl in Hnd. inversion Hnd as [|? ? Hni Hnd']; subst.
  constructor; [auto|].
  rewrite Forall_forall in *. intros y Hy. specialize (Hall y Hy).
  unfold birthday_le, birthday_lt in *.
  assert (_field_birthday (snd x) <> _field_birthday (snd y)).
  { intros E. apply Hni. rewrite E.
    apply (in_map (fun kf => _field_birthday (snd kf))). assumption. }
  lia.
Qed.

Lemma bound_sorted (owner : string) (l : list (string * Field)) :
  StronglySorted birthday_lt l ->
  StronglySorted birthday_lt (map (bound owner) l).
Proof.
  induction 1 as [|x l Hs IH Hall]; simpl; constructor; [assumption|].
  rewrite Forall_forall in *. intros y Hy. apply in_map_iff in Hy.
  destruct Hy as (z & <- & Hz). apply (Hall z Hz).
Qed.

(** Whatever the attribute mapping, as long as no key and no field object
    comes twice in it, and wherever its fields were created: the class
    [HasFields] builds lists the fields of the mapping by increasing
    birthday, each bound to the name it sits under and to the class. *)
Theorem HasFields_binds_fields (pf : Struct.platform) (name : string)
    (attrs : list (string * class_attr)) (cls : struct_type) :
  NoDup (map fst attrs) ->
  NoDup (map (fun kf => _field_birthday (snd kf)) (field_items attrs)) ->
  HasFields_new pf name attrs = Ok cls ->
  _fields cls = map (bound name) (sorted_by_birthday (field_items attrs))
  /\ Permutation (od_keys (_fields cls)) (map fst (field_items attrs))
  /\ StronglySorted birthday_lt (_fields cls)
  /\ bound_class cls
  /\ Forall (fun kf => _owner_type (snd kf) = Some name) (_fields cls).
Proof.
  intros Hk Hb H.
  pose proof (sorted_by_birthday_perm (field_items attrs)) as Hperm.
  assert (Hkeys : NoDup (od_keys (sorted_by_birthday (field_items attrs)))).
  { unfold od_keys. apply (Permutation_NoDup (l := map fst (field_items attrs))).
    - apply Permutation_map. symmetry. assumption.
    - apply field_items_keys_nodup. assumption. }
  assert (Hs : StronglySorted birthday_lt (sorted_by_birthday (field_items attrs))).
  { apply sorted_strict; [apply sorted_by_birthday_sorted|].
    apply (Permutation_NoDup (l := map (fun kf => _field_birthday (snd kf))
                                       (field_items attrs))); [|assumption].
    apply Permutation_map. symmetry. assumption. }
  assert (Hf : _fields cls = map (bound name) (sorted_by_birthday (field_items attrs))).
  { unfold HasFields_new in H. destruct (negb (body_ok attrs)); [discriminate|].
    apply bind_Ok in H. destruct H as (st & _ & H). injection H as <-. simpl.
    rewrite (od_of_list_nodup String.eqb String.eqb_eq) by assumption.
    apply bind_names_sorted. assumption. }
  assert (Hkk : od_keys (map (bound name) (sorted_by_birthday (field_items attrs)))
                = od_keys (sorted_by_birthday (field_items attrs))).
  { unfold od_keys. rewrite map_map. reflexivity. }
  rewrite Hf. split; [reflexivity|]. split; [|split; [|split; [split|]]].
  - rewrite Hkk. unfold od_keys. apply Permutation_map. assumption.
  - apply bound_sorted. assumption.
  - rewrite Hf, Hkk. assumption.
  - rewrite Hf. apply Forall_forall. intros kf Hin. apply in_map_iff in Hin.
    destruct Hin as (x & <- & _). reflexivity.
  - apply Forall_forall. intros kf Hin. apply in_map_iff in Hin.
    destruct Hin as (x & <- & _). reflexivity.
Qed.

Lemma HasFields_binds_fields_witness :
  _fields Foo_cls
  = map (bound "Foo")
        (sorted_by_birthday
           (field_items (("__module__", AOther) :: rev (attrs_of Foo_body 0%nat))))
  /\ Permutation (od_keys (_fields Foo_cls))
       (map fst (field_items (("__module__", AOther) :: rev (attrs_of Foo_body 0%nat))))
  /\ StronglySorted birthday_lt (_fields Foo_cls)
  /\ bound_class Foo_cls
  /\ Forall (fun kf => _owner_type (snd kf) = Some "Foo") (_fields Foo_cls).
Proof.
  apply (HasFields_binds_fields Struct.linux_x86_64 "Foo"
           (("__module__", AOther) :: rev (attrs_of Foo_body 0%nat)) Foo_cls).
  - repeat constructor; simpl; intuition discriminate.
  - repeat constructor; simpl; intuition discriminate.
  - reflexivity.
Defined.

(** ** Equality is an equivalence *)

Lemma py_eq_refl (v : value) : py_eq v v = true.
Proof.
  destruct v; simpl.
  - reflexivity.
  - apply Bool.eqb_reflx.
  - apply Z.eqb_refl.
  - apply String.eqb_refl.
  - apply bytes_eqb_refl.
Qed.

Lemma bytes_eqb_eq (a b : list byte) : bytes_eqb a b = true <-> a = b.
Proof.
  unfold bytes_eqb. destruct (list_eq_dec Byte.byte_eq_dec a b); split;
    congruence.
Qed.

(** [==] on values relates exactly the values that denote the same
    integer, the same text or the same bytes, or are both [None]. *)
Lemma py_eq_spec (a b : value) :
  py_eq a b = true <->
  match a, b with
  | VNone, VNone => True
  | VStr x, VStr y => x = y
  | VBytes x, VBytes y => x = y
  | _, _ => exists z, Struct.as_integer a = Ok z /\ Struct.as_integer b = Ok z
  end.
Proof.
  destruct a as [|x|x|x|x], b as [|y|y|y|y]; simpl;
    try (split; [discriminate|intros (z & H1 & H2); discriminate]);
    try tauto.
  - destruct x, y; simpl; (split; [try discriminate; eauto|]);
      intros (z & H1 & H2); inversion H1; inversion H2; subst;
      try reflexivity; discriminate.
  - rewrite Z.eqb_eq. split; [intros <-; eauto|].
    intros (z' & H1 & H2). congruence.
  - rewrite Z.eqb_eq. split; [intros <-; eauto|].
    intros (z' & H1 & H2). congruence.
  - rewrite Z.eqb_eq. split; [intros <-; eauto|].
    intros (z' & H1 & H2). congruence.
  - apply String.eqb_eq.
  - apply bytes_eqb_eq.
Qed.

Lemma py_eq_sym (a b : value) : py_eq a b = true -> py_eq b a = true.
Proof.
  rewrite !py_eq_spec.
  destruct a as [|x|x|x|x], b as [|y|y|y|y]; try tauto; try congruence;
    intros (n & H1 & H2); eauto.
Qed.

Lemma py_eq_trans (a b c : value) :
  py_eq a b = true -> py_eq b c = true -> py_eq a c = true.
Proof.
  rewrite !py_eq_spec.
  destruct a as [|x|x|x|x], b as [|y|y|y|y]; try tauto;
    try (intros (n & H1 & H2); discriminate);
    destruct c as [|w|w|w|w]; try tauto; try congruence;
    try (intros _ (n & H1 & H2); discriminate);
    try (intros (n & H1 & H2) (n' & H3 & H4); exists n; split; congruence).
Qed.

(** On instances, [==] is reflexive, symmetric and transitive, and no
    instance equals an object that is not an instance. *)
Theorem NamedStruct_eq_equivalence (a b c : instance) (v : value) :
  NoDup (od_keys (_values a)) ->
  NoDup (od_keys (_values b)) ->
  NamedStruct_eq a (PStruct a) = true
  /\ (NamedStruct_eq a (PStruct b) = true -> NamedStruct_eq b (PStruct a) = true)
  /\ (NamedStruct_eq a (PStruct b) = true -> NamedStruct_eq b (PStruct c) = true ->
      NamedStruct_eq a (PStruct c) = true)
  /\ NamedStruct_eq a (PValue v) = false.
Proof.
  intros Ha Hb. unfold NamedStruct_eq.
  rewrite !(od_eq_spec name_eqb name_eqb_eq py_eq _ _ Ha).
  rewrite !(od_eq_spec name_eqb name_eqb_eq py_eq _ _ Hb).
  split; [|split; [|split; [|reflexivity]]].
  - clear. induction (_values a) as [|x l IH]; constructor; [|assumption].
    split; [reflexivity|apply py_eq_refl].
  - clear. induction 1 as [|x y l l' [H1 H2] _ IH]; constructor; [|assumption].
    split; [congruence|apply py_eq_sym; assumption].
  - clear. intros H. revert c. generalize (_values a) (_values b) H. clear.
    induction 1 as [|x y l l' [H1 H2] _ IH]; intros c Hc;
      inversion Hc as [|? z ? l'' [H3 H4] Hc' E1 E2]; subst; constructor.
    + split; [congruence|apply (py_eq_trans _ (snd y)); assumption].
    + destruct c as [t vals d]. simpl in *. subst vals.
      apply (IH {| inst_type := t; _values := l''; inst_dict := d |}).
      assumption.
Qed.

Lemma NamedStruct_eq_equivalence_witness :
  NamedStruct_eq foo_obj (PStruct foo_obj) = true
  /\ (NamedStruct_eq foo_obj (PStruct foo_obj) = true ->
      NamedStruct_eq foo_obj (PStruct foo_obj) = true)
  /\ (NamedStruct_eq foo_obj (PStruct foo_obj) = true ->
      NamedStruct_eq foo_obj (PStruct empty_label) = true ->
      NamedStruct_eq foo_obj (PStruct empty_label) = true)
  /\ NamedStruct_eq foo_obj (PValue VNone) = false.
Proof.
  apply (NamedStruct_eq_equivalence foo_obj foo_obj empty_label VNone);
    repeat constructor; simpl; intuition discriminate.
Defined.

(** ** Buffers of every class *)

Lemma Struct_new_inv (pf : Struct.platform) (fmt : string) (st : Struct.t) :
  Struct.new pf fmt = Ok st ->
  Struct.s_platform st = pf
  /\ Forall (fun it => 0 <= fst it) (Struct.s_items st)
  /\ Struct.s_size st = end_offset pf (Struct.s_mode st) (Struct.s_items st) 0
  /\ Struct.s_len st = Struct.count_values (Struct.s_items st).
Proof.
  unfold Struct.new.
  destruct (negb (Struct.forallb_string Struct.is_ascii fmt)); [discriminate|].
  destruct (negb (Struct.forallb_string _ fmt)); [discriminate|].
  destruct (Struct.split_prefix pf fmt) as [m body].
  intros H. apply bind_Ok in H. destruct H as (items & Hi & H).
  apply bind_Ok in H. destruct H as (size & Hs & H). injection H as <-. simpl.
  repeat split.
  - apply (parse_items_nonneg pf m body None items I Hi).
  - apply calcsize_end_offset. assumption.
Qed.

Lemma end_offset_le (pf : Struct.platform) (m : Struct.mode)
    (items : list (Z * Struct.code)) :
  Forall (fun it => 0 <= fst it) items ->
  forall off, off <= end_offset pf m items off.
Proof.
  induction 1 as [|it items Hn _ IH]; intros off; simpl; [lia|].
  specialize (IH (off + Struct.gap pf m (snd it) off
                  + fst it * Struct.itemsize pf m (snd it))).
  pose proof (gap_nonneg pf m (snd it) off).
  pose proof (itemsize_pos pf m (snd it)). nia.
Qed.

(** Every class has one buffer length, whatever the formats of its
    fields: each buffer [pack] returns has exactly the size of the
    compiled layout, and [unpack] raises the struct library's error on a
    buffer of any other length. *)
Theorem buffers_have_the_layout_size (pf : Struct.platform) (name : string)
    (attrs : list (string * class_attr)) (cls : struct_type) :
  HasFields_new pf name attrs = Ok cls ->
  0 <= Struct.s_size (_struct cls)
  /\ (forall self bs, inst_type self = cls -> pack self = Ok bs ->
      Z.of_nat (List.length bs) = Struct.s_size (_struct cls))
  /\ (forall buf, Z.of_nat (List.length buf) <> Struct.s_size (_struct cls) ->
      unpack cls buf = Raise StructError).
Proof.
  intros H. destruct (HasFields_new_sound _ _ _ _ H) as [Hc _].
  destruct (Struct_new_inv _ _ _ Hc) as (Hpf & Hnn & Hs & Hl).
  split; [|split].
  - rewrite Hs. apply end_offset_le. assumption.
  - intros self bs Ht Hp. unfold pack, Struct.pack in Hp. rewrite Ht in Hp.
    destruct (Z.of_nat (List.length (_to_seq self)) =? Struct.s_len (_struct cls));
      [|discriminate].
    rewrite Hpf in Hp.
    rewrite (pack_items_length pf _ _ Hnn _ _ _ Hp), Hs. lia.
  - intros buf Hlen. unfold unpack, Struct.unpack.
    apply Z.eqb_neq in Hlen. rewrite Hlen. reflexivity.
Qed.

Lemma buffers_have_the_layout_size_witness :
  0 <= Struct.s_size (_struct Foo_cls)
  /\ (forall self bs, inst_type self = Foo_cls -> pack self = Ok bs ->
      Z.of_nat (List.length bs) = Struct.s_size (_struct Foo_cls))
  /\ (forall buf, Z.of_nat (List.length buf) <> Struct.s_size (_struct Foo_cls) ->
      unpack Foo_cls buf = Raise StructError).
Proof.
  apply (buffers_have_the_layout_size Struct.linux_x86_64 "Foo"
           (attrs_of Foo_body 0%nat) Foo_cls).
  reflexivity.
Defined.

(** ** Unpacking into plain fields *)








(** ** Negative lengths *)

Lemma of_Z_negative (z : Z) :
  z < 0 -> exists rest, Str.of_Z z = String "-" rest.
Proof.
  destruct z as [|p|p]; try lia. intros _. eexists. reflexivity.
Qed.

Lemma contains_app (c : ascii) (s t : string) :
  contains c (s ++ t) = contains c s || contains c t.
Proof.
  induction s as [|d s IH]; simpl; [reflexivity|].
  rewrite IH. apply orb_assoc.
Qed.

Lemma contains_join (c : ascii) (sep s : string) (l : list string) :
  In s l -> contains c s = true -> contains c (Str.join sep l) = true.
Proof.
  intros Hin Hc. induction l as [|t l IH]; [destruct Hin|].
  destruct l as [|t' l].
  - destruct Hin as [->|[]]. assumption.
  - change (Str.join sep (t :: t' :: l))
      with (t ++ sep ++ Str.join sep (t' :: l))%string.
    rewrite !contains_app. destruct Hin as [->|Hin].
    + rewrite Hc. reflexivity.
    + rewrite (IH Hin). rewrite !orb_true_r. reflexivity.
Qed.

(** The format of a string field or of a padding created with a negative
    length starts with a minus sign. *)
Lemma negative_fmt (len : Z) (c : ascii) :
  len < 0 -> Str.isspace c = false ->
  contains "-" (Str.strip (Str.of_Z len ++ String c "")) = true.
Proof.
  intros Hlen Hc. destruct (of_Z_negative len Hlen) as (rest & ->).
  unfold Str.strip. rewrite (rstrip_by_last _ _ _ Hc). reflexivity.
Qed.

(** No format that holds a character which is neither a code, a digit
    nor white space compiles. *)
Lemma parse_items_bad_char (pf : Struct.platform) (m : Struct.mode) (c : ascii) :
  Struct.code_of_char c = None ->
  Str.is_digit c = false ->
  Struct.c_isspace c = false ->
  forall s num items,
    contains c s = true -> Struct.parse_items pf m s num <> Ok items.
Proof.
  intros Hcode Hdig Hsp. induction s as [|d s IH]; intros num items Hin;
    [discriminate|].
  simpl in Hin. simpl. destruct (Ascii.eqb c d) eqn:E.
  - apply Ascii.eqb_eq in E. subst d. rewrite Hcode, Hdig, Hsp.
    destruct num; discriminate.
  - simpl in Hin.
    assert (Hitem : forall n,
              match Struct.code_of_char d with
              | Some k =>
                  if Struct.available m k
                  then rest <- Struct.parse_items pf m s None ;; Ok ((n, k) :: rest)
                  else Raise StructError
              | None => Raise StructError
              end <> Ok items).
    { intros n. destruct (Struct.code_of_char d); [|discriminate].
      destruct (Struct.available m c0); [|discriminate].
      intros H. apply bind_Ok in H. destruct H as (rest & Hr & _).
      exact (IH None rest Hin Hr). }
    destruct num as [n|].
    + destruct (Str.is_digit d).
      * destruct ((Struct.ssize_max pf / 10 <=? n)
                  && ((Struct.ssize_max pf / 10 <? n)
                      || (Struct.ssize_max pf mod 10 <? Str.digit_val d)));
          [discriminate|]. apply IH. assumption.
      * apply Hitem.
    + destruct (Struct.c_isspace d); [apply IH; assumption|].
      destruct (Str.is_digit d); [apply IH; assumption|]. apply Hitem.
Qed.

Lemma split_prefix_contains (pf : Struct.platform) (fmt : string) :
  contains "-" fmt = true ->
  contains "-" (snd (Struct.split_prefix pf fmt)) = true.
Proof.
  destruct fmt as [|a s]; [discriminate|].
  destruct a as [[] [] [] [] [] [] [] []]; intros H; exact H.
Qed.

Lemma Struct_new_bad_char (pf : Struct.platform) (fmt : string) (st : Struct.t) :
  contains "-" fmt = true -> Struct.new pf fmt <> Ok st.
Proof.
  intros Hc H. unfold Struct.new in H.
  destruct (negb (Struct.forallb_string Struct.is_ascii fmt)); [discriminate|].
  destruct (negb (Struct.forallb_string _ fmt)); [discriminate|].
  pose proof (split_prefix_contains pf fmt Hc) as Hb.
  destruct (Struct.split_prefix pf fmt) as [m body]. simpl in Hb.
  apply bind_Ok in H. destruct H as (items & Hi & _).
  apply (parse_items_bad_char pf m "-" eq_refl eq_refl eq_refl body None items Hb Hi).
Qed.

Lemma assign_name_fmts (b : nat) (n owner : string) (table : list (string * Field)) :
  map (fun kf => _fmt (snd kf)) (assign_name b n owner table)
  = map (fun kf => _fmt (snd kf)) table.
Proof.
  unfold assign_name. rewrite map_map. apply map_ext.
  intros kf. destruct (Nat.eqb (_field_birthday (snd kf)) b); reflexivity.
Qed.

Lemma bind_names_fmts (owner : string) (table : list (string * Field)) :
  map (fun kf => _fmt (snd kf)) (bind_names owner table)
  = map (fun kf => _fmt (snd kf)) table.
Proof.
  unfold bind_names.
  assert (G : forall l acc,
            map (fun kf => _fmt (snd kf))
                (fold_left (fun acc kf =>
                              assign_name (_field_birthday (snd kf)) (fst kf)
                                          owner acc) l acc)
            = map (fun kf => _fmt (snd kf)) acc).
  { induction l as [|kf l IH]; intros acc; simpl; [reflexivity|].
    rewrite IH. apply assign_name_fmts. }
  apply G.
Qed.

Lemma field_items_in (attrs : list (string * class_attr)) (k : string) (f : Field) :
  In (k, AField f) attrs -> In (k, f) (field_items attrs).
Proof.
  induction attrs as [|[n [g|]] attrs IH]; simpl; [tauto| |]; intros [E|H].
  - inversion E. auto.
  - auto.
  - discriminate.
  - auto.
Qed.

(** A class that declares a string field or a padding of negative length
    is never built: the minus sign of the length ends up in the format
    handed to the struct library, which refuses it. *)
Theorem negative_length_is_rejected (pf : Struct.platform) (name : string)
    (attrs : list (string * class_attr)) (k : string) (f : Field) (len : Z) :
  NoDup (map fst attrs) ->
  In (k, AField f) attrs ->
  len < 0 ->
  (exists enc sn n, f = fst (StringField_init len enc sn n))
  \/ (exists n, f = fst (Padding_init len n)) ->
  forall cls, HasFields_new pf name attrs <> Ok cls.
Proof.
  intros Hnd Hin Hlen Hf cls H.
  assert (Hfmt : contains "-" (_fmt f) = true).
  { destruct Hf as [(enc & sn & n & ->)|(n & ->)];
      cbn [StringField_init Padding_init Field_init fst _fmt];
      apply negative_fmt; (assumption || reflexivity). }
  unfold HasFields_new in H. destruct (negb (body_ok attrs)); [discriminate|].
  apply bind_Ok in H. destruct H as (st & Hst & _).
  apply (Struct_new_bad_char pf _ st) in Hst; [assumption|].
  unfold layout, od_values. rewrite map_map, bind_names_fmts.
  rewrite (od_of_list_nodup String.eqb String.eqb_eq).
  - apply (contains_join _ _ (_fmt f)); [|assumption].
    apply (in_map (fun kf => _fmt (snd kf)) _ (k, f)).
    apply (Permutation_in _ (Permutation_sym (sorted_by_birthday_perm _))).
    apply field_items_in. assumption.
  - unfold od_keys.
    apply (Permutation_NoDup (l := map fst (field_items attrs))).
    + apply Permutation_map. symmetry. apply sorted_by_birthday_perm.
    + apply field_items_keys_nodup. assumption.
Qed.

Lemma negative_length_is_rejected_witness :
  HasFields_new Struct.linux_x86_64 "Bad"
    (attrs_of [("a", NewField "B" false); ("s", NewStringField (-1) ascii_ false)]
              0%nat)
  <> Ok no_class.
Proof.
  apply (fun Hd Hin Hlen Hf =>
           negative_length_is_rejected Struct.linux_x86_64 "Bad" _ "s"
             (fst (StringField_init (-1) ascii_ false 1%nat)) (-1)
             Hd Hin Hlen Hf no_class).
  - repeat constructor; simpl; intuition discriminate.
  - simpl. auto.
  - lia.
  - left. exists ascii_, false, 1%nat. reflexivity.
Defined.

(** ** A field named [self] *)

Lemma od_set_keys_has (k : string) (v : value) (d : list (string * value)) :
  In k (od_keys (od_set String.eqb k v d))
  /\ (forall x, In x (od_keys d) -> In x (od_keys (od_set String.eqb k v d))).
Proof.
  destruct (in_dec string_dec k (od_keys d)) as [Hin|Hni].
  - rewrite (od_set_keys_in String.eqb String.eqb_eq) by assumption. auto.
  - rewrite (od_set_keys_new String.eqb String.eqb_eq) by assumption.
    unfold od_keys. rewrite map_app. simpl. split.
    + apply in_or_app. right. simpl. auto.
    + intros x Hx. apply in_or_app. auto.
Qed.

(** The keywords [_from_seq] builds hold the name of every significant
    field that a value is left for, unless a field without a name stops
    it. *)
Lemma seq_kwargs_reaches_self (fs : list Field) :
  forall vs acc,
    (List.length fs <= List.length vs)%nat ->
    In "self" (od_keys acc) \/ (exists f, In f fs /\ _name f = Some "self") ->
    seq_kwargs fs vs acc = Raise TypeError
    \/ exists kw, seq_kwargs fs vs acc = Ok kw /\ In "self" (od_keys kw).
Proof.
  induction fs as [|f fs IH]; intros vs acc Hlen Hself; simpl.
  - right. exists acc. split; [reflexivity|].
    destruct Hself as [H|(g & [] & _)]. exact H.
  - destruct vs as [|v vs]; [simpl in Hlen; lia|].
    destruct (_name f) as [n|] eqn:En; [|auto].
    apply IH; [simpl in Hlen; lia|].
    destruct (od_set_keys_has n v acc) as [Hk Hkeep].
    destruct Hself as [H|(g & [->|Hg] & Hn)].
    + left. apply Hkeep. assumption.
    + left. rewrite En in Hn. inversion Hn; subst n. exact Hk.
    + right. exists g. auto.
Qed.

(** A class may declare a significant field under the name [self], but
    that field can never be given to the constructor: a keyword of that
    name clashes with the parameter of [__init__(self, **kwargs)], so the
    call raises [TypeError].  [_from_seq] passes every significant field
    as a keyword, so it raises [TypeError] whenever it has a value for
    each of them, and with it [unpack], whatever the buffer. *)
Theorem field_named_self_is_refused (cls : struct_type) (f : Field) :
  In f (significant_fields cls) ->
  _name f = Some "self" ->
  (forall kwargs, In "self" (map fst kwargs) ->
                  NamedStruct_init cls kwargs = Raise TypeError)
  /\ (forall vs,
         (List.length (significant_fields cls) <= List.length vs)%nat ->
         _from_seq cls vs = Raise TypeError)
  /\ (forall buf vs,
         Struct.unpack (_struct cls) buf = Ok vs ->
         (List.length (significant_fields cls) <= List.length vs)%nat ->
         unpack cls buf = Raise TypeError).
Proof.
  intros Hf Hname.
  assert (Hinit : forall kwargs, In "self" (map fst kwargs) ->
                    NamedStruct_init cls kwargs = Raise TypeError).
  { intros kwargs Hin. apply binds_self_spec in Hin.
    unfold NamedStruct_init. rewrite Hin. reflexivity. }
  assert (Hseq : forall vs,
             (List.length (significant_fields cls) <= List.length vs)%nat ->
             _from_seq cls vs = Raise TypeError).
  { intros vs Hlen. unfold _from_seq.
    destruct (seq_kwargs_reaches_self (significant_fields cls) vs [] Hlen)
      as [->|(kw & -> & Hkw)].
    - right. exists f. auto.
    - reflexivity.
    - cbn [bind]. apply Hinit. exact Hkw. }
  split; [exact Hinit|]. split; [exact Hseq|].
  intros buf vs Hu Hlen. unfold unpack. rewrite Hu. cbn [bind].
  apply Hseq. exact Hlen.
Qed.

Lemma field_named_self_is_refused_witness :
  NamedStruct_init
    (returned no_class
       (HasFields_new Struct.linux_x86_64 "X"
          (attrs_of [("self", NewField "B" false)] 0%nat)))
    [("self", VInt 1)]
  = Raise TypeError
  /\ unpack
       (returned no_class
          (HasFields_new Struct.linux_x86_64 "X"
             (attrs_of [("self", NewField "B" false)] 0%nat)))
       [x01]
     = Raise TypeError.
Proof.
  destruct (field_named_self_is_refused
              (returned no_class
                 (HasFields_new Struct.linux_x86_64 "X"
                    (attrs_of [("self", NewField "B" false)] 0%nat)))
              (field_named
                 (returned no_class
                    (HasFields_new Struct.linux_x86_64 "X"
                       (attrs_of [("self", NewField "B" false)] 0%nat)))
                 "self"))
    as (H1 & _ & H3).
  - simpl. auto.
  - reflexivity.
  - split.
    + apply H1. simpl. auto.
    + apply (H3 [x01] [VInt 1]); [reflexivity|simpl; lia].
Defined.
